(** * useeio-widgets: configuration protocol and heatmap results

    A shallow embedding of [src/widget.ts] and [src/calc/heatmap-result.ts].

    Conventions of the embedding.
    - A JavaScript string is a [string]; a character [ascii] stands for the
      code unit of the same number (U+0000 to U+00FF).
    - A [number] that holds a year is [NaN] or an integer [Int z]; the
      decimal rendering of [Int z] is the one JavaScript prints for
      [|z| < 10^21].
    - The heatmap code is written over an interface of arithmetic, read
      with the numbers of JavaScript (IEEE 754 doubles, [binary64]) and
      with rational numbers ([exact]), which compute without rounding.
    - [null] and [undefined] are [None].
    - Mutation is explicit state passing: a function that updates its
      argument returns the updated value. *)

From Stdlib Require Import List String Ascii Bool Arith ZArith QArith Lia.
From Stdlib Require Import Qabs Qminmax Lqa Permutation Sorted.
From Stdlib Require Import DecimalString DecimalZ DecimalPos.
From Stdlib Require Import Floats.PrimFloat.
Import ListNotations.

Local Open Scope string_scope.
Local Open Scope list_scope.

(** ** JavaScript strings *)

Module JsString.

(** White space and line terminators, the characters [trim] removes. *)
Definition isWhiteSpace (c : ascii) : bool :=
  let n := nat_of_ascii c in
  ((9 <=? n) && (n <=? 13) || (n =? 32) || (n =? 160))%nat.

(** [String.prototype.toLowerCase] on one code unit. *)
Definition lowerChar (c : ascii) : ascii :=
  let n := nat_of_ascii c in
  if ((65 <=? n) && (n <=? 90))%nat then ascii_of_nat (n + 32)
  else if ((192 <=? n) && (n <=? 222) && negb (n =? 215))%nat
       then ascii_of_nat (n + 32)
       else c.

Fixpoint toLowerCase (s : string) : string :=
  match s with
  | EmptyString => EmptyString
  | String c s' => String (lowerChar c) (toLowerCase s')
  end.

Fixpoint trimStart (s : string) : string :=
  match s with
  | EmptyString => EmptyString
  | String c s' => if isWhiteSpace c then trimStart s' else s
  end.

Fixpoint trimEnd (s : string) : string :=
  match s with
  | EmptyString => EmptyString
  | String c s' =>
      match trimEnd s' with
      | EmptyString => if isWhiteSpace c then EmptyString
                       else String c EmptyString
      | r => String c r
      end
  end.

Definition trim (s : string) : string := trimEnd (trimStart s).

(** [s.split(sep)] for a separator of one character: never empty. *)
Fixpoint split (sep : ascii) (s : string) : list string :=
  match s with
  | EmptyString => [EmptyString]
  | String c s' =>
      if Ascii.eqb c sep then EmptyString :: split sep s'
      else match split sep s' with
           | [] => [String c EmptyString]
           | h :: t => String c h :: t
           end
  end.

(** [xs.join(sep)]. *)
Fixpoint join (sep : string) (xs : list string) : string :=
  match xs with
  | [] => EmptyString
  | [x] => x
  | x :: rest => (x ++ sep ++ join sep rest)%string
  end.

(** [hay.indexOf(needle) >= 0]. *)
Fixpoint includes (needle hay : string) : bool :=
  prefix needle hay ||
  match hay with
  | EmptyString => false
  | String _ hay' => includes needle hay'
  end.

(** Truthiness of a string value: [null], [undefined] and [""] are falsy. *)
Definition truthy (o : option string) : bool :=
  match o with
  | Some (String _ _) => true
  | _ => false
  end.

End JsString.

(** ** Numbers that hold a year *)

Inductive number : Type :=
| NaN
| Int (z : Z).

Module JsNumber.

Definition truthy (o : option number) : bool :=
  match o with
  | Some (Int z) => negb (Z.eqb z 0)
  | _ => false
  end.

Definition digitOf (c : ascii) : option Z :=
  let n := nat_of_ascii c in
  if ((48 <=? n) && (n <=? 57))%nat then Some (Z.of_nat (n - 48)) else None.

(** The value of the longest prefix of decimal digits, [None] when the
    prefix is empty. *)
Fixpoint readDigits (s : string) (acc : option Z) : option Z :=
  match s with
  | EmptyString => acc
  | String c s' =>
      match digitOf c with
      | Some d =>
          readDigits s'
            (Some (10 * match acc with Some a => a | None => 0 end + d)%Z)
      | None => acc
      end
  end.

(** [parseInt(s, 10)]: leading white space, an optional sign, then the
    longest prefix of digits; [NaN] when there is no digit. It never
    throws. *)
Definition parseInt (s : string) : number :=
  let t := JsString.trimStart s in
  let '(neg, body) :=
    match t with
    | String "-" r => (true, r)
    | String "+" r => (false, r)
    | _ => (false, t)
    end in
  match readDigits body None with
  | None => NaN
  | Some m => Int (if neg then - m else m)
  end.

(** [`${n}`]. *)
Definition toString (n : number) : string :=
  match n with
  | NaN => "NaN"
  | Int z => NilZero.string_of_int (Z.to_int z)
  end.

End JsNumber.

(** ** The configuration object ([src/widget.ts]) *)

(** An object identity, compared with [===]. *)
Definition Identity : Type := nat.

(** Modelled from the spec: the type [DemandType] of the missing module
    [webapi], the two values the analysis field takes. *)
Inductive DemandType : Type := Consumption | Production.

(** Modelled from the spec: the type [ResultPerspective] of the missing
    module [webapi], the three values the perspective field takes. *)
Inductive ResultPerspective : Type := direct | intermediate | final.

Definition DemandType_toString (a : DemandType) : string :=
  match a with
  | Consumption => "Consumption"
  | Production => "Production"
  end.

Definition ResultPerspective_toString (p : ResultPerspective) : string :=
  match p with
  | direct => "direct"
  | intermediate => "intermediate"
  | final => "final"
  end.

Record Config : Type := mkConfig {
  source : option Identity;
  model : option string;
  sectors : option (list string);
  indicators : option (list string);
  perspective : option ResultPerspective;
  analysis : option DemandType;
  year : option number;
  location : option string
}.

(** The object literal [{}]. *)
Definition emptyConfig : Config :=
  mkConfig None None None None None None None None.

Definition set_source (c : Config) (v : option Identity) : Config :=
  mkConfig v (model c) (sectors c) (indicators c) (perspective c)
           (analysis c) (year c) (location c).
Definition set_model (c : Config) (v : option string) : Config :=
  mkConfig (source c) v (sectors c) (indicators c) (perspective c)
           (analysis c) (year c) (location c).
Definition set_sectors (c : Config) (v : option (list string)) : Config :=
  mkConfig (source c) (model c) v (indicators c) (perspective c)
           (analysis c) (year c) (location c).
Definition set_indicators (c : Config) (v : option (list string)) : Config :=
  mkConfig (source c) (model c) (sectors c) v (perspective c)
           (analysis c) (year c) (location c).
Definition set_perspective (c : Config) (v : option ResultPerspective)
  : Config :=
  mkConfig (source c) (model c) (sectors c) (indicators c) v
           (analysis c) (year c) (location c).
Definition set_analysis (c : Config) (v : option DemandType) : Config :=
  mkConfig (source c) (model c) (sectors c) (indicators c) (perspective c)
           v (year c) (location c).
Definition set_year (c : Config) (v : option number) : Config :=
  mkConfig (source c) (model c) (sectors c) (indicators c) (perspective c)
           (analysis c) v (location c).
Definition set_location (c : Config) (v : option string) : Config :=
  mkConfig (source c) (model c) (sectors c) (indicators c) (perspective c)
           (analysis c) (year c) v.

(** ** Reading a configuration from URLs *)

(** Modelled from the spec: [strings.eq] of the missing module [strings],
    the case-insensitive comparison of the analysis values. *)
Definition strings_eq (s1 s2 : string) : bool :=
  String.eqb (JsString.toLowerCase s1) (JsString.toLowerCase s2).

Definition getPerspective (val : string) : option ResultPerspective :=
  match val with
  | EmptyString => None
  | _ =>
      let v := JsString.toLowerCase (JsString.trim val) in
      if (v =? "direct") || (v =? "direct results") || (v =? "supply")
         || (v =? "supply chain")
      then Some direct
      else if (v =? "final") || (v =? "final results") || (v =? "consumption")
              || (v =? "final consumption") || (v =? "point of consumption")
      then Some final
      else if (v =? "intermediate") || (v =? "intermediate results")
      then Some intermediate
      else None
  end.

(** One round of the loop of [updateConfig]: the [switch] on the key. A
    field is written only when the configuration holds no truthy value for
    it. In the [year] case [parseInt] returns without throwing, so the
    [catch] block (which deletes the field) is never entered, and control
    then falls into the empty [default] case. *)
Definition updateConfigParam (config : Config) (param : string * string)
  : Config :=
  let '(key, val) := param in
  if key =? "model" then
    if JsString.truthy (model config) then config
    else set_model config (Some val)
  else if key =? "sectors" then
    match sectors config with
    | Some _ => config
    | None => set_sectors config (Some (JsString.split "," val))
    end
  else if key =? "indicators" then
    match indicators config with
    | Some _ => config
    | None => set_indicators config (Some (JsString.split "," val))
    end
  else if (key =? "type") || (key =? "analysis") then
    match analysis config with
    | Some _ => config
    | None =>
        if strings_eq val "consumption"
        then set_analysis config (Some Consumption)
        else if strings_eq val "production"
             then set_analysis config (Some Production)
             else config
    end
  else if key =? "perspective" then
    match perspective config with
    | Some _ => config
    | None =>
        match getPerspective val with
        | Some p => set_perspective config (Some p)
        | None => config
        end
    end
  else if key =? "location" then
    if JsString.truthy (location config) then config
    else set_location config (Some val)
  else if key =? "year" then
    if JsNumber.truthy (year config) then config
    else set_year config (Some (JsNumber.parseInt val))
  else config.

Definition updateConfig (config : Config) (urlParams : list (string * string))
  : Config :=
  fold_left updateConfigParam urlParams config.

Definition getParameters (urlPart : option string) : list (string * string) :=
  match urlPart with
  | None | Some EmptyString => []
  | Some part =>
      flat_map
        (fun pair =>
           match JsString.split "=" pair with
           | k :: v :: _ =>
               [(JsString.toLowerCase (JsString.trim k), JsString.trim v)]
           | _ => []
           end)
        (JsString.split "&" part)
  end.

Definition getHashPart (url : string) : option string :=
  match url with
  | EmptyString => None
  | _ =>
      let parts := JsString.split "#" url in
      if (List.length parts <? 2)%nat then None
      else Some (nth (List.length parts - 1) parts EmptyString)
  end.

Definition getParameterPart (url : string) : option string :=
  match url with
  | EmptyString => None
  | _ =>
      let parts := JsString.split "#" url in
      let part :=
        if (1 <? List.length parts)%nat
        then nth (List.length parts - 2) parts EmptyString
        else url in
      let parts := JsString.split "?" part in
      if (List.length parts <? 2)%nat then None
      else Some (nth 1 parts EmptyString)
  end.

(** [parseUrlConfig(what)]: [href] is [window.location.href], [scriptSrcs]
    the [src] of the script tags of the document in document order, and
    [withScripts] is [what && what.withScripts]. *)
Definition parseUrlConfig (href : string) (scriptSrcs : list string)
    (withScripts : bool) : Config :=
  let urls :=
    href ::
    (if withScripts
     then filter (fun url => negb (String.eqb url EmptyString)) scriptSrcs
     else []) in
  fold_left
    (fun config url =>
       let hashParams := getParameters (getHashPart url) in
       let otherParams := getParameters (getParameterPart url) in
       updateConfig (updateConfig config hashParams) otherParams)
    urls emptyConfig.

(** ** Writing a configuration to the URL hash *)

(** [UrlConfigTransmitter.updateHash]: the string it assigns to
    [window.location.hash] for the configuration [conf] it holds. *)
Definition updateHash (conf : Config) : string :=
  let parts0 :=
    match sectors conf with
    | Some ((_ :: _) as xs) =>
        [("sectors=" ++ JsString.join "," xs)%string]
    | _ => []
    end in
  let parts1 :=
    match indicators conf with
    | Some ((_ :: _) as xs) =>
        parts0 ++ [("indicators=" ++ JsString.join "," xs)%string]
    | _ => parts0
    end in
  let push (parts : list string) (key : string) (val : option string) :=
    match val with
    | Some v => parts ++ [(key ++ "=" ++ v)%string]
    | None => parts
    end in
  let parts2 :=
    push parts1 "type" (option_map DemandType_toString (analysis conf)) in
  let parts3 :=
    push parts2 "perspective"
         (option_map ResultPerspective_toString (perspective conf)) in
  let parts4 :=
    push parts3 "year"
         (if JsNumber.truthy (year conf)
          then option_map JsNumber.toString (year conf) else None) in
  let parts5 :=
    push parts4 "location"
         (if JsString.truthy (location conf) then location conf else None) in
  let parts6 :=
    push parts5 "model"
         (if JsString.truthy (model conf) then model conf else None) in
  ("#" ++ JsString.join "&" parts6)%string.

(** ** The widget base class ([src/widget.ts]) *)

Module Widget.

(** A registered change listener; the callback itself is opaque. *)
Definition Listener : Type := nat.

(** The fields of a widget; [self] is the identity [this]. An entry of
    [queue] is the closure [() => this.handleUpdate(config)], kept as the
    configuration it captured. *)
Record t : Type := mk {
  self : Identity;
  isReady : bool;
  listeners : list Listener;
  queue : list Config
}.

(** [new]: the field initialisers. *)
Definition create (id : Identity) : t := mk id false [] [].

(** [config.source === this]. *)
Definition fromSelf (w : t) (config : Config) : bool :=
  match source config with
  | Some i => Nat.eqb i (self w)
  | None => false
  end.

(** [update(config)]. The second component lists the calls of
    [handleUpdate] made, in order. *)
Definition update (w : t) (config : option Config) : t * list Config :=
  match config with
  | None => (w, [])
  | Some c =>
      if fromSelf w c then (w, [])
      else if negb (isReady w)
           then (mk (self w) (isReady w) (listeners w) (queue w ++ [c]), [])
           else (w, [c])
  end.

(** [ready()]: [pop] takes the last entry of the queue. *)
Definition ready (w : t) : t * list Config :=
  let w1 := mk (self w) true (listeners w) (queue w) in
  match rev (queue w1) with
  | [] => (w1, [])
  | c :: _ =>
      (mk (self w1) (isReady w1) (listeners w1) (removelast (queue w1)), [c])
  end.

Definition onChanged (w : t) (fn : Listener) : t :=
  mk (self w) (isReady w) (listeners w ++ [fn]) (queue w).

(** [fireChange(config)]: the stamped configuration and the listeners
    called with it, in order. *)
Definition fireChange (w : t) (config : Config)
  : Config * list (Listener * Config) :=
  let config' := set_source config (Some (self w)) in
  (config', map (fun fn => (fn, config')) (listeners w)).

(** The calls a widget receives. *)
Inductive call : Type :=
| Update (config : option Config)
| Ready.

Definition step (w : t) (c : call) : t * list Config :=
  match c with
  | Update config => update w config
  | Ready => ready w
  end.

(** A sequence of calls, with the calls of [handleUpdate] it makes. *)
Fixpoint run (w : t) (cs : list call) : t * list Config :=
  match cs with
  | [] => (w, [])
  | c :: cs' =>
      let '(w1, h1) := step w c in
      let '(w2, h2) := run w1 cs' in
      (w2, h1 ++ h2)
  end.

End Widget.

(** ** Numbers of a result matrix *)

(** The arithmetic the heatmap code uses, as an interface: the code below
    is written once and read with either of two kinds of numbers. *)
Module Arith.

Record t (num : Type) : Type := mk {
  zero : num;                     (* [0] *)
  hundred : num;                  (* [100] *)
  add : num -> num -> num;        (* [x + y] *)
  sub : num -> num -> num;        (* [x - y] *)
  mul : num -> num -> num;        (* [x * y] *)
  div : num -> num -> num;        (* [x / y] *)
  opp : num -> num;               (* [-x] *)
  abs : num -> num;               (* [Math.abs(x)] *)
  max : num -> num -> num;        (* [Math.max(x, y)] *)
  falsy : num -> bool;            (* [!x] *)
  isZero : num -> bool;           (* [x === 0] *)
  nonNegative : num -> bool;      (* [x >= 0] *)
  positive : num -> bool          (* [v > 0], the test a sort makes on
                                     what the comparator returns *)
}.

Arguments zero {num}.
Arguments hundred {num}.
Arguments add {num}.
Arguments sub {num}.
Arguments mul {num}.
Arguments div {num}.
Arguments opp {num}.
Arguments abs {num}.
Arguments max {num}.
Arguments falsy {num}.
Arguments isZero {num}.
Arguments nonNegative {num}.
Arguments positive {num}.

End Arith.

(** [Math.max] on doubles: [NaN] if an argument is, and [+0] above [-0]. *)
Definition float_max (a b : float) : float :=
  if PrimFloat.is_nan a || PrimFloat.is_nan b then PrimFloat.nan
  else if PrimFloat.ltb a b then b
  else if PrimFloat.ltb b a then a
  else if PrimFloat.get_sign a then b else a.

(** The numbers of JavaScript: IEEE 754 double precision. *)
Definition binary64 : Arith.t float :=
  Arith.mk float
    PrimFloat.zero 100%float
    PrimFloat.add PrimFloat.sub PrimFloat.mul PrimFloat.div PrimFloat.opp
    PrimFloat.abs float_max
    (fun x => PrimFloat.is_zero x || PrimFloat.is_nan x)
    (fun x => PrimFloat.eqb x PrimFloat.zero)
    (fun x => PrimFloat.leb PrimFloat.zero x)
    (fun x => PrimFloat.ltb PrimFloat.zero x).

(** The same operations without rounding: rational numbers. *)
Definition exact : Arith.t Q :=
  Arith.mk Q
    0 100
    Qplus Qminus Qmult Qdiv Qopp
    Qabs Qmax
    (fun x => Qeq_bool x 0)
    (fun x => Qeq_bool x 0)
    (fun x => Qle_bool 0 x)
    (fun x => negb (Qle_bool x 0)).

(** ** Heatmap results ([src/calc/heatmap-result.ts]) *)

(** Modelled from the spec: the interfaces [Sector], [Indicator] and
    [Result] of the missing module [webapi]. *)
Module Sector.
Record t : Type := mk {
  code : string;
  id : string;
  index : Z;
  name : string;
  description : string;
  location : option string
}.
End Sector.

Module Indicator.
Record t : Type := mk {
  code : string;
  index : Z;
  name : string
}.
End Indicator.

Module Result.
Record t (num : Type) : Type := mk {
  data : list (list num);
  totals : list num;
  sectors : list string;
  indicators : list string
}.
Arguments mk {num}.
Arguments data {num}.
Arguments totals {num}.
Arguments sectors {num}.
Arguments indicators {num}.
End Result.

(** How a call that computes a number ends: with a value, with [undefined]
    read past the end of an array, or with a [TypeError]. *)
Inductive outcome (A : Type) : Type :=
| Ok (a : A)
| Undefined
| TypeError.
Arguments Ok {A} a.
Arguments Undefined {A}.
Arguments TypeError {A}.

Definition bind {A B : Type} (m : outcome A) (k : A -> outcome B)
  : outcome B :=
  match m with
  | Ok a => k a
  | Undefined => Undefined
  | TypeError => TypeError
  end.

Notation "'let*' x ':=' m 'in' k" := (bind m (fun x => k))
  (at level 10, x name, m at level 100, k at level 200).

(** [xs.map((x, i) => f(x, i))]. *)
Fixpoint mapi_from {A B : Type} (f : A -> nat -> B) (i : nat) (xs : list A)
  : list B :=
  match xs with
  | [] => []
  | x :: xs' => f x i :: mapi_from f (S i) xs'
  end.

Definition mapi {A B : Type} (f : A -> nat -> B) (xs : list A) : list B :=
  mapi_from f 0 xs.

(** [ranks.sort(cmp)]: [Array.prototype.sort] is stable, and with a
    consistent comparator its result is the stable sorted arrangement,
    computed here by insertion. [cmp a b > 0] places [a] after [b]. *)
Fixpoint insert {A num : Type} (N : Arith.t num) (cmp : A -> A -> num)
    (x : A) (xs : list A) : list A :=
  match xs with
  | [] => [x]
  | y :: xs' =>
      if Arith.positive N (cmp x y) then y :: insert N cmp x xs'
      else x :: xs
  end.

Definition sort {A num : Type} (N : Arith.t num) (cmp : A -> A -> num)
    (xs : list A) : list A :=
  fold_right (insert N cmp) [] xs.

(** [xs.slice(0, count)] for an integer [count]. *)
Definition slice0 {A : Type} (count : Z) (xs : list A) : list A :=
  let len := Z.of_nat (List.length xs) in
  let final := if (count <? 0)%Z then Z.max (len + count) 0
               else Z.min count len in
  firstn (Z.to_nat final) xs.

Module HeatmapResult.

Record t (num : Type) : Type := mk {
  sectors : list Sector.t;
  result : Result.t num;
  normalized : list (list num);
  shares : list (list num)
}.
Arguments mk {num}.
Arguments sectors {num}.
Arguments result {num}.
Arguments normalized {num}.
Arguments shares {num}.

Section WithNumbers.

Context {num : Type} (N : Arith.t num).

(** The entry of [normalized] for the entry [x] of a row with total
    [total]; [total] is [None] when [result.totals[i]] is [undefined]. *)
Definition normalizeEntry (total : option num) (x : num) : num :=
  match total with
  | None => Arith.zero N
  | Some total =>
      if Arith.falsy N total || Arith.falsy N x then Arith.zero N
      else Arith.div N x total
  end.

Definition normalize (result : Result.t num) : list (list num) :=
  mapi (fun row i => map (normalizeEntry (nth_error (Result.totals result) i))
                         row)
       (Result.data result).

(** [row.reduce((max, x) => Math.max(max, Math.abs(x)), 0)], guarded by
    the test for an empty row. *)
Definition maxIndicatorValue (row : list num) : num :=
  match row with
  | [] => Arith.zero N
  | _ => fold_left (fun max x => Arith.max N max (Arith.abs N x)) row
                   (Arith.zero N)
  end.

Definition shareEntry (max x : num) : num :=
  if Arith.isZero N x then Arith.zero N
  else if Arith.isZero N max
       then (if Arith.nonNegative N x then Arith.hundred N
             else Arith.opp N (Arith.hundred N))
       else Arith.div N (Arith.mul N (Arith.hundred N) x) max.

(** The constructor. [maxIndicatorValues] has one entry for each row of
    [normalized], so [maxIndicatorValues[i]] is always defined. *)
Definition make (sectors : list Sector.t) (result : Result.t num) : t num :=
  let normalized := normalize result in
  let maxIndicatorValues := map maxIndicatorValue normalized in
  let shares :=
    mapi (fun row i =>
            let max := nth i maxIndicatorValues (Arith.zero N) in
            match row with
            | [] => []
            | _ => map (shareEntry max) row
            end)
         normalized in
  mk sectors result normalized shares.

(** [value(data, row, column)]. Every call passes an array, so the test
    [!data] is not taken. After the range tests both reads are inside the
    arrays; the definition keeps what the reads would do outside. *)
Definition value (data : list (list num)) (row column : Z) : outcome num :=
  if (row <? 0)%Z || (Z.of_nat (List.length data) <=? row)%Z
  then Ok (Arith.zero N)
  else
    match nth_error data (Z.to_nat row) with
    | None => TypeError
    | Some xs =>
        if (column <? 0)%Z || (Z.of_nat (List.length xs) <=? column)%Z
        then Ok (Arith.zero N)
        else
          match nth_error xs (Z.to_nat column) with
          | None => Undefined
          | Some x => Ok x
          end
    end.

Definition getResult (h : t num) (indicator : option Indicator.t)
    (sector : option Sector.t) : outcome num :=
  match indicator, sector with
  | Some indicator, Some sector =>
      value (Result.data (result h)) (Indicator.index indicator)
            (Sector.index sector)
  | _, _ => Ok (Arith.zero N)
  end.

Definition getShare (h : t num) (indicator : option Indicator.t)
    (sector : option Sector.t) : outcome num :=
  match indicator, sector with
  | Some indicator, Some sector =>
      value (shares h) (Indicator.index indicator) (Sector.index sector)
  | _, _ => Ok (Arith.zero N)
  end.

Definition matchesFilter (sector : Sector.t) (filter : option string)
  : bool :=
  match filter with
  | None | Some EmptyString => true
  | Some filter =>
      match Sector.name sector with
      | EmptyString => false
      | name => JsString.includes filter (JsString.toLowerCase name)
      end
  end.

Definition getRankingValue (h : t num) (sector : Sector.t)
    (indicators : list Indicator.t) : outcome num :=
  let column := Sector.index sector in
  fold_left
    (fun sum indicator =>
       let* sum := sum in
       let* v := value (normalized h) (Indicator.index indicator) column in
       Ok (Arith.add N sum v))
    indicators (Ok (Arith.zero N)).

(** The loop of [getRanking] that fills [ranks]. *)
Fixpoint collectRanks (h : t num) (filter : option string)
    (indicators : list Indicator.t) (sectors : list Sector.t)
  : outcome (list (Sector.t * num)) :=
  match sectors with
  | [] => Ok []
  | sector :: sectors' =>
      if matchesFilter sector filter then
        let* v := getRankingValue h sector indicators in
        let* ranks := collectRanks h filter indicators sectors' in
        Ok ((sector, v) :: ranks)
      else collectRanks h filter indicators sectors'
  end.

(** The first lines of [getRanking]: the filter is [null] unless the
    name filter has a character that is not white space. *)
Definition rankingFilter (nameFilter : option string) : option string :=
  match nameFilter with
  | Some (String _ _ as nameFilter) =>
      match JsString.trim nameFilter with
      | EmptyString => None
      | trimmed => Some (JsString.toLowerCase trimmed)
      end
  | _ => None
  end.

Definition getRanking (h : t num) (indicators : list Indicator.t) (count : Z)
    (nameFilter : option string) : outcome (list Sector.t) :=
  let filter := rankingFilter nameFilter in
  let* ranks := collectRanks h filter indicators (sectors h) in
  let ranks := sort N (fun r1 r2 => Arith.sub N (snd r2) (snd r1)) ranks in
  Ok (map fst (slice0 count ranks)).

End WithNumbers.

End HeatmapResult.

(** ** Aggregation over regions ([aggregateByRegions]) *)




Section AggregateWithNumbers.

Context {num : Type} (N : Arith.t num).









End AggregateWithNumbers.

(** ** The URL transmitter ([UrlConfigTransmitter], [src/widget.ts]) *)

(** The value of a field of [{...a, ...b}]: that of [b] when [b] holds the
    field. A field is [None] when the object has no property of that name;
    objects that hold a property with the value [undefined] are not
    configurations of the embedding. *)
Definition overriddenBy {A : Type} (x y : option A) : option A :=
  match y with
  | Some _ => y
  | None => x
  end.

(** [{...a, ...b}]. *)
Definition spread (a b : Config) : Config :=
  mkConfig (overriddenBy (source a) (source b))
           (overriddenBy (model a) (model b))
           (overriddenBy (sectors a) (sectors b))
           (overriddenBy (indicators a) (indicators b))
           (overriddenBy (perspective a) (perspective b))
           (overriddenBy (analysis a) (analysis b))
           (overriddenBy (year a) (year b))
           (overriddenBy (location a) (location b)).

Module UrlConfigTransmitter.

(** The fields of a transmitter; [self] is the identity [this]. The
    widgets are the joined widgets in the state they have; the page holds
    the same objects. *)
Record t : Type := mk {
  self : Identity;
  widgets : list Widget.t;
  config : Config
}.

(** The constructor, on a page with the URL [href] and the script sources
    [scriptSrcs]. *)
Definition create (id : Identity) (href : string) (scriptSrcs : list string)
  : t :=
  mk id [] (parseUrlConfig href scriptSrcs true).

(** [get()]: a copy of the configuration. *)
Definition get (tr : t) : Config := config tr.

(** [update(config)]: the transmitter after the call and the string
    assigned to [window.location.hash]. *)
Definition update (tr : t) (c : Config) : t * string :=
  let conf := set_source (spread (config tr) c) (Some (self tr)) in
  (mk (self tr) (widgets tr) conf, updateHash conf).


Definition isSome {A : Type} (o : option A) : bool :=
  match o with Some _ => true | None => false end.



(** [onHashChanged()] when [window.location.href] is [href]: the
    transmitter after the call and the calls of [handleUpdate] made, each
    with the widget that makes it, in order. *)
Definition onHashChanged (tr : t) (href : string)
  : t * list (Identity * Config) :=
  let conf := spread (config tr) (parseUrlConfig href [] false) in
  (mk (self tr)
      (map (fun w => fst (Widget.update w (Some conf))) (widgets tr))
      conf,
   flat_map (fun w => map (fun c => (Widget.self w, c))
                          (snd (Widget.update w (Some conf))))
            (widgets tr)).

(** [clearAll()]: the string assigned to [window.location.hash]. *)
Definition clearAll : string := EmptyString.

(** The listener that [join] registers for a widget, called with
    [config]: the transmitter after the call and the string assigned to
    [window.location.hash]. *)
Definition changed (tr : t) (widget : Identity) (c : Config) : t * string :=
  let conf := set_source (spread (config tr) c) (Some widget) in
  (mk (self tr) (widgets tr) conf, updateHash conf).

(** [join(widget)]: the transmitter after the call and the calls of
    [handleUpdate] made. The listener is registered under the identity of
    the transmitter. *)
Definition join (tr : t) (widget : Widget.t) : t * list Config :=
  let '(w1, calls) := Widget.update widget (Some (config tr)) in
  (mk (self tr) (widgets tr ++ [Widget.onChanged w1 (self tr)]) (config tr),
   calls).

End UrlConfigTransmitter.

(** ** Vocabulary of the statements *)

(** The configuration of an update that [w] does not suppress. *)
Definition accepted (w : Widget.t) (config : option Config) : list Config :=
  match config with
  | Some c => if Widget.fromSelf w c then [] else [c]
  | None => []
  end.

(** The sectors that pass the name filter, in the order of the sector
    list. *)
Definition passing {num : Type} (h : HeatmapResult.t num)
    (nameFilter : option string) : list Sector.t :=
  filter (fun s => HeatmapResult.matchesFilter
                     s (HeatmapResult.rankingFilter nameFilter))
         (HeatmapResult.sectors h).

(** The ranking score of a sector, as [getRankingValue] computes it. *)
Definition scoreOf {num : Type} (N : Arith.t num) (h : HeatmapResult.t num)
    (indicators : list Indicator.t) (s : Sector.t) : num :=
  match HeatmapResult.getRankingValue N h s indicators with
  | Ok v => v
  | _ => Arith.zero N
  end.


(** [x] occurs in [xs] at a position before an occurrence of [y]. *)
Definition before {A : Type} (x y : A) (xs : list A) : Prop :=
  exists l1 l2 l3, xs = l1 ++ x :: l2 ++ y :: l3.


(** The rows of a result are well formed: no entry of a row with a
    nonzero total exceeds the total in absolute value. *)
Definition wellFormed (r : Result.t Q) : Prop :=
  forall i row total x,
    nth_error (Result.data r) i = Some row ->
    nth_error (Result.totals r) i = Some total ->
    ~ total == 0 ->
    In x row ->
    Qabs x <= Qabs total.


Fixpoint hasChar (c : ascii) (s : string) : bool :=
  match s with
  | EmptyString => false
  | String c' s' => Ascii.eqb c' c || hasChar c s'
  end.

(** [s] neither starts nor ends with white space. *)
Definition trimmed (s : string) : bool := String.eqb (JsString.trim s) s.

(** A sector or indicator code as the claim describes it. *)
Definition plainCode (s : string) : bool :=
  negb (hasChar "," s) && negb (hasChar "&" s) && negb (hasChar "#" s)
  && negb (hasChar "=" s).

Definition plainText (s : string) : bool :=
  negb (hasChar "&" s) && negb (hasChar "#" s) && negb (hasChar "=" s)
  && trimmed s.

Definition nonEmpty (s : string) : bool :=
  match s with EmptyString => false | _ => true end.

Definition optionAll {A : Type} (p : A -> bool) (o : option A) : bool :=
  match o with Some a => p a | None => true end.

Definition nonEmptyList {A : Type} (xs : list A) : bool :=
  match xs with [] => false | _ => true end.

(** The configurations of the round trip as stated: each field is absent
    or a value of the kind listed. *)
Definition statedConfig (c : Config) : bool :=
  optionAll (fun xs => nonEmptyList xs && forallb plainCode xs) (sectors c)
  && optionAll (fun xs => nonEmptyList xs && forallb plainCode xs)
               (indicators c)
  && optionAll (fun y => JsNumber.truthy (Some y)) (year c)
  && optionAll nonEmpty (location c)
  && optionAll nonEmpty (model c).

(** A year that the integers of the embedding render as JavaScript does. *)
Definition safeYear (y : number) : bool :=
  match y with
  | Int z => negb (Z.eqb z 0) && (Z.abs z <? 2 ^ 53)%Z
  | NaN => false
  end.

(** The configurations that survive the round trip: in addition, the
    comma-joined list of codes neither starts nor ends with white space,
    and the location and the model contain none of [&], [#], [=] and no
    white space at their ends. *)
Definition portableCodes (xs : list string) : bool :=
  nonEmptyList xs && forallb plainCode xs && trimmed (JsString.join "," xs).

Definition portableConfig (c : Config) : bool :=
  optionAll portableCodes (sectors c)
  && optionAll portableCodes (indicators c)
  && optionAll safeYear (year c)
  && optionAll (fun s => nonEmpty s && plainText s) (location c)
  && optionAll (fun s => nonEmpty s && plainText s) (model c).

(** The parameters [updateHash] writes, as pairs of key and value. *)
Definition hashPairs (c : Config) : list (string * string) :=
  match sectors c with
  | Some ((_ :: _) as xs) => [("sectors", JsString.join "," xs)]
  | _ => []
  end
  ++ match indicators c with
     | Some ((_ :: _) as xs) => [("indicators", JsString.join "," xs)]
     | _ => []
     end
  ++ match analysis c with
     | Some a => [("type", DemandType_toString a)]
     | None => []
     end
  ++ match perspective c with
     | Some p => [("perspective", ResultPerspective_toString p)]
     | None => []
     end
  ++ match year c with
     | Some y => if JsNumber.truthy (Some y)
                 then [("year", JsNumber.toString y)] else []
     | None => []
     end
  ++ match location c with
     | Some (String _ _ as l) => [("location", l)]
     | _ => []
     end
  ++ match model c with
     | Some (String _ _ as m) => [("model", m)]
     | _ => []
     end.

(** [`${key}=${val}`]. *)
Definition pairString (kv : string * string) : string :=
  (fst kv ++ "=" ++ snd kv)%string.

(** The keys [updateHash] writes. *)
Definition hashKey (k : string) : bool :=
  existsb (String.eqb k)
          ["sectors"; "indicators"; "type"; "perspective"; "year";
           "location"; "model"].

Fixpoint allChars (p : ascii -> bool) (s : string) : bool :=
  match s with
  | EmptyString => true
  | String c s' => p c && allChars p s'
  end.



(** The URLs [parseUrlConfig] reads, in order. *)
Definition configUrls (href : string) (scriptSrcs : list string)
    (withScripts : bool) : list string :=
  href ::
  (if withScripts
   then filter (fun url => negb (String.eqb url EmptyString)) scriptSrcs
   else []).

(** The parameters of a list of URLs in the order of precedence: for each
    URL, those of its hash and then those of its query. *)
Definition urlParameters (urls : list string) : list (string * string) :=
  flat_map (fun url => getParameters (getHashPart url)
                       ++ getParameters (getParameterPart url)) urls.


(** The characters of the decimal rendering of an integer. *)
Definition numericChar (c : ascii) : bool :=
  match JsNumber.digitOf c with
  | Some _ => true
  | None => Ascii.eqb c "-"
  end.

(** The keys [updateConfig] has a case for. *)
Definition configKey (k : string) : bool :=
  existsb (String.eqb k)
          ["model"; "sectors"; "indicators"; "type"; "analysis";
           "perspective"; "location"; "year"].

(** A sequence of calls of [onHashChanged], one for each URL of [hrefs]
    that the page takes in turn, with the calls of [handleUpdate] made. *)
Fixpoint hashChanges (tr : UrlConfigTransmitter.t) (hrefs : list string)
  : UrlConfigTransmitter.t * list (Identity * Config) :=
  match hrefs with
  | [] => (tr, [])
  | href :: hrefs' =>
      let '(tr1, calls1) := UrlConfigTransmitter.onHashChanged tr href in
      let '(tr2, calls2) := hashChanges tr1 hrefs' in
      (tr2, calls1 ++ calls2)
  end.







(** * Properties *)

(** ** The widget state machine *)

Section WidgetFacts.

Import Widget.

Lemma run_app (w : t) (cs1 cs2 : list call) :
  run w (cs1 ++ cs2) =
  let '(w1, h1) := run w cs1 in
  let '(w2, h2) := run w1 cs2 in
  (w2, h1 ++ h2).
Proof.
  revert w. induction cs1 as [|c cs1 IH]; intros w; simpl.
  - destruct (run w cs2); reflexivity.
  - destruct (step w c) as [w1 h1]. rewrite IH.
    destruct (run w1 cs1) as [w2 h2]. destruct (run w2 cs2) as [w3 h3].
    now rewrite app_assoc.
Qed.

Lemma fromSelf_same_self (w w' : t) (c : Config) :
  self w' = self w -> fromSelf w' c = fromSelf w c.
Proof. unfold fromSelf. now intros ->. Qed.

(** Once ready, a widget hands every update that is not suppressed to
    its handler at once and keeps its state. *)
Lemma run_updates_ready (w : t) (configs : list (option Config)) :
  isReady w = true ->
  run w (map Update configs) = (w, flat_map (accepted w) configs).
Proof.
  intros Hr. induction configs as [|o configs IH]; simpl; [reflexivity|].
  unfold update, accepted.
  destruct o as [c|]; [destruct (fromSelf w c)|]; try rewrite Hr; simpl;
    rewrite IH; reflexivity.
Qed.

End WidgetFacts.

(** C9. An update whose configuration is [null] or [undefined], or whose
    [source] is the widget itself, changes nothing: the readiness flag, the
    queue and the listeners stay as they are and [handleUpdate] is not
    called. *)
Theorem update_echo_is_noop (w : Widget.t) (config : option Config) :
  (config = None \/
   exists c, config = Some c /\ source c = Some (Widget.self w)) ->
  Widget.update w config = (w, []).
Proof.
  intros [-> | (c & -> & Hsrc)]; [reflexivity|].
  unfold Widget.update, Widget.fromSelf. rewrite Hsrc, Nat.eqb_refl.
  reflexivity.
Qed.

Lemma update_echo_is_noop_witness :
  let w := Widget.mk 7%nat false [1; 2]%nat [emptyConfig] in
  let c := set_source emptyConfig (Some 7%nat) in
  Widget.update w (Some c) = (w, []).
Proof.
  intros w c. apply (update_echo_is_noop w (Some c)).
  right. exists c. split; reflexivity.
Defined.

(** C6. A widget that is not ready receives two updates that it does not
    suppress, [c1] and then [c2], and becomes ready: [handleUpdate] is
    called once, with [c2]. Whatever updates follow, the only later calls
    are the ones these updates make themselves: neither [c1] nor anything
    queued before it is applied. *)
Theorem ready_applies_last_update_only
    (w : Widget.t) (c1 c2 : Config) (later : list (option Config)) :
  Widget.isReady w = false ->
  Widget.fromSelf w c1 = false ->
  Widget.fromSelf w c2 = false ->
  snd (Widget.run w [Widget.Update (Some c1); Widget.Update (Some c2);
                     Widget.Ready]) = [c2]
  /\ snd (Widget.run w ([Widget.Update (Some c1); Widget.Update (Some c2);
                         Widget.Ready] ++ map Widget.Update later))
     = c2 :: flat_map (accepted w) later.
Proof.
  intros Hr H1 H2.
  assert (Hrun : Widget.run w [Widget.Update (Some c1);
                               Widget.Update (Some c2); Widget.Ready]
                 = (Widget.mk (Widget.self w) true (Widget.listeners w)
                              (Widget.queue w ++ [c1]), [c2])).
  { simpl. unfold Widget.update. rewrite H1, Hr. simpl.
    rewrite (fromSelf_same_self w) by reflexivity. rewrite H2.
    unfold Widget.ready. simpl.
    rewrite !rev_app_distr. simpl.
    rewrite <- app_assoc. simpl.
    rewrite (removelast_app (Widget.queue w)) by discriminate.
    reflexivity. }
  split; [now rewrite Hrun|].
  rewrite run_app, Hrun. rewrite run_updates_ready by reflexivity.
  reflexivity.
Qed.

Lemma ready_applies_last_update_only_witness :
  let w := Widget.mk 7%nat false [] [set_year emptyConfig (Some (Int 1990))] in
  let c1 := set_year emptyConfig (Some (Int 2019)) in
  let c2 := set_year emptyConfig (Some (Int 2020)) in
  snd (Widget.run w [Widget.Update (Some c1); Widget.Update (Some c2);
                     Widget.Ready]) = [c2].
Proof.
  intros w c1 c2.
  apply (ready_applies_last_update_only w c1 c2 []); reflexivity.
Defined.

(** ** Lookups in a matrix *)

Section LookupFacts.

Import HeatmapResult.

Context {num : Type} (N : Arith.t num).

(** The range tests of [value] cover both reads: it always returns a
    number. *)
Lemma value_total (data : list (list num)) (row column : Z) :
  exists x, value N data row column = Ok x.
Proof.
  unfold value.
  destruct ((row <? 0)%Z || (Z.of_nat (List.length data) <=? row)%Z) eqn:Hrow;
    [now eexists|].
  apply orb_false_elim in Hrow as [Hr0 Hr1].
  apply Z.ltb_ge in Hr0. apply Z.leb_gt in Hr1.
  destruct (nth_error data (Z.to_nat row)) as [xs|] eqn:Hxs.
  - destruct ((column <? 0)%Z || (Z.of_nat (List.length xs) <=? column)%Z)
      eqn:Hcol; [now eexists|].
    apply orb_false_elim in Hcol as [Hc0 Hc1].
    apply Z.ltb_ge in Hc0. apply Z.leb_gt in Hc1.
    destruct (nth_error xs (Z.to_nat column)) as [x|] eqn:Hx; [now exists x|].
    apply nth_error_None in Hx. lia.
  - apply nth_error_None in Hxs. lia.
Qed.

Lemma value_row_outside (data : list (list num)) (row column : Z) :
  (row < 0 \/ Z.of_nat (List.length data) <= row)%Z ->
  value N data row column = Ok (Arith.zero N).
Proof.
  intros H. unfold value.
  replace ((row <? 0)%Z || (Z.of_nat (List.length data) <=? row)%Z) with true;
    [reflexivity|].
  symmetry. apply orb_true_iff.
  destruct H; [left; now apply Z.ltb_lt | right; now apply Z.leb_le].
Qed.

Lemma value_column_negative (data : list (list num)) (row column : Z) :
  (column < 0)%Z -> value N data row column = Ok (Arith.zero N).
Proof.
  intros H. unfold value.
  destruct ((row <? 0)%Z || (Z.of_nat (List.length data) <=? row)%Z) eqn:Hrow;
    [reflexivity|].
  apply orb_false_elim in Hrow as [Hr0 Hr1].
  apply Z.ltb_ge in Hr0. apply Z.leb_gt in Hr1.
  destruct (nth_error data (Z.to_nat row)) as [xs|] eqn:Hxs.
  - apply Z.ltb_lt in H. now rewrite H.
  - apply nth_error_None in Hxs. lia.
Qed.

Lemma value_column_outside (data : list (list num)) (row column : Z)
    (xs : list num) :
  nth_error data (Z.to_nat row) = Some xs ->
  (Z.of_nat (List.length xs) <= column)%Z ->
  value N data row column = Ok (Arith.zero N).
Proof.
  intros Hxs H. unfold value.
  destruct ((row <? 0)%Z || (Z.of_nat (List.length data) <=? row)%Z);
    [reflexivity|].
  rewrite Hxs. apply Z.leb_le in H. rewrite H, orb_true_r. reflexivity.
Qed.

End LookupFacts.

(** C8. With any numbers, [getResult] and [getShare] return [0] when the
    indicator or the sector is [null] or [undefined], when the index of the
    indicator is negative or not below the number of rows of the matrix
    read, and when the index of the sector is negative or not below the
    length of the row addressed; and every call returns a number: none
    raises an error. *)
Theorem lookups_default_to_zero {num : Type} (N : Arith.t num)
    (h : HeatmapResult.t num) :
  (forall sector,
     HeatmapResult.getResult N h None sector = Ok (Arith.zero N)
     /\ HeatmapResult.getShare N h None sector = Ok (Arith.zero N))
  /\ (forall indicator,
        HeatmapResult.getResult N h indicator None = Ok (Arith.zero N)
        /\ HeatmapResult.getShare N h indicator None = Ok (Arith.zero N))
  /\ (forall i s,
        (Indicator.index i < 0
         \/ Z.of_nat (List.length (Result.data (HeatmapResult.result h)))
            <= Indicator.index i)%Z ->
        HeatmapResult.getResult N h (Some i) (Some s) = Ok (Arith.zero N))
  /\ (forall i s,
        (Indicator.index i < 0
         \/ Z.of_nat (List.length (HeatmapResult.shares h))
            <= Indicator.index i)%Z ->
        HeatmapResult.getShare N h (Some i) (Some s) = Ok (Arith.zero N))
  /\ (forall i s,
        (Sector.index s < 0)%Z ->
        HeatmapResult.getResult N h (Some i) (Some s) = Ok (Arith.zero N)
        /\ HeatmapResult.getShare N h (Some i) (Some s) = Ok (Arith.zero N))
  /\ (forall i s xs,
        nth_error (Result.data (HeatmapResult.result h))
                  (Z.to_nat (Indicator.index i)) = Some xs ->
        (Z.of_nat (List.length xs) <= Sector.index s)%Z ->
        HeatmapResult.getResult N h (Some i) (Some s) = Ok (Arith.zero N))
  /\ (forall i s xs,
        nth_error (HeatmapResult.shares h)
                  (Z.to_nat (Indicator.index i)) = Some xs ->
        (Z.of_nat (List.length xs) <= Sector.index s)%Z ->
        HeatmapResult.getShare N h (Some i) (Some s) = Ok (Arith.zero N))
  /\ (forall indicator sector,
        (exists x, HeatmapResult.getResult N h indicator sector = Ok x)
        /\ (exists x, HeatmapResult.getShare N h indicator sector = Ok x)).
Proof.
  repeat match goal with
         | |- _ /\ _ => split
         | |- forall _, _ => intro
         end.
  - reflexivity.
  - reflexivity.
  - now destruct indicator.
  - now destruct indicator.
  - now apply value_row_outside.
  - now apply value_row_outside.
  - now apply value_column_negative.
  - now apply value_column_negative.
  - eapply value_column_outside; eassumption.
  - eapply value_column_outside; eassumption.
  - destruct indicator, sector; try (now eexists). apply value_total.
  - destruct indicator, sector; try (now eexists). apply value_total.
Qed.

Lemma lookups_default_to_zero_witness :
  let r := Result.mk [[1; 2]; [3; 4]]%float [3; 7]%float [] [] in
  let h := HeatmapResult.make binary64 [] r in
  let i := Indicator.mk "i" 1 "i" in
  let s := Sector.mk "s" "s" 2 "s" "" None in
  HeatmapResult.getResult binary64 h (Some i) (Some s) = Ok 0%float.
Proof.
  intros r h i s.
  apply (proj1 (proj2 (proj2 (proj2 (proj2 (proj2
           (lookups_default_to_zero binary64 h)))))) i s [3; 4]%float).
  - reflexivity.
  - simpl. lia.
Defined.

(** ** The sort *)

Section SortFacts.

Context {A num : Type} (N : Arith.t num) (cmp : A -> A -> num).

Lemma insert_perm (x : A) (xs : list A) :
  Permutation (insert N cmp x xs) (x :: xs).
Proof.
  induction xs as [|y xs IH]; simpl; [reflexivity|].
  destruct (Arith.positive N (cmp x y)); [|reflexivity].
  rewrite IH. apply perm_swap.
Qed.

Lemma sort_perm (xs : list A) : Permutation (sort N cmp xs) xs.
Proof.
  induction xs as [|x xs IH]; simpl; [reflexivity|].
  rewrite insert_perm. now constructor.
Qed.

Lemma sort_length (xs : list A) :
  List.length (sort N cmp xs) = List.length xs.
Proof. apply Permutation_length, sort_perm. Qed.

End SortFacts.

Section SortMapFacts.

Context {A B num : Type} (N : Arith.t num) (g : A -> B)
        (cmp : B -> B -> num).

Lemma insert_map (x : A) (xs : list A) :
  insert N cmp (g x) (map g xs)
  = map g (insert N (fun a b => cmp (g a) (g b)) x xs).
Proof.
  induction xs as [|y xs IH]; simpl; [reflexivity|].
  destruct (Arith.positive N (cmp (g x) (g y))); simpl; [|reflexivity].
  now rewrite IH.
Qed.

Lemma sort_map (xs : list A) :
  sort N cmp (map g xs) = map g (sort N (fun a b => cmp (g a) (g b)) xs).
Proof.
  induction xs as [|x xs IH]; simpl; [reflexivity|].
  now rewrite IH, insert_map.
Qed.

End SortMapFacts.

(** With exact numbers the comparator of [getRanking] orders by score. *)
Section ExactSortFacts.

Context {A : Type} (key : A -> Q).

(** The comparator of [getRanking], on the score [key]. *)
Let byKey : A -> A -> Q := fun r1 r2 => Arith.sub exact (key r2) (key r1).

Lemma byKey_positive (x y : A) :
  Arith.positive exact (byKey x y) = true <-> key x < key y.
Proof.
  unfold byKey. cbn [Arith.positive Arith.sub exact].
  rewrite negb_true_iff. split.
  - intros H. destruct (Qlt_le_dec (key x) (key y)) as [Hlt|Hle];
      [assumption|].
    assert (Hb : Qle_bool (key y - key x) 0 = true)
      by (apply Qle_bool_iff; lra).
    congruence.
  - intros H. destruct (Qle_bool (key y - key x) 0) eqn:E; [|reflexivity].
    apply Qle_bool_iff in E. lra.
Qed.

Lemma byKey_not_positive (x y : A) :
  Arith.positive exact (byKey x y) = false <-> key y <= key x.
Proof.
  split; intros H.
  - destruct (Qlt_le_dec (key x) (key y)) as [Hlt|Hle]; [|assumption].
    apply byKey_positive in Hlt. congruence.
  - destruct (Arith.positive exact (byKey x y)) eqn:E; [|reflexivity].
    apply byKey_positive in E. lra.
Qed.





End ExactSortFacts.

Section SortUnique.

Context {A : Type} (key : A -> Q).






End SortUnique.

(** ** Prefixes and relative order *)

Section OrderFacts.

Context {A : Type}.


Lemma in_firstn (n : nat) (x : A) (xs : list A) :
  In x (firstn n xs) -> In x xs.
Proof.
  intros H. rewrite <- (firstn_skipn n xs). apply in_or_app. now left.
Qed.






End OrderFacts.

(** ** The ranking *)

Section RankingFacts.

Import HeatmapResult.

Context {num : Type} (N : Arith.t num).
Variable h : HeatmapResult.t num.
Variable indicators : list Indicator.t.

Lemma getRankingValue_total (s : Sector.t) :
  exists v, getRankingValue N h s indicators = Ok v.
Proof.
  unfold getRankingValue.
  assert (H : forall inds a, exists v,
             fold_left
               (fun sum indicator =>
                  let* sum := sum in
                  let* v := value N (normalized h) (Indicator.index indicator)
                                  (Sector.index s) in
                  Ok (Arith.add N sum v))
               inds (Ok a) = Ok v).
  { induction inds as [|i inds IH]; intros a; simpl; [now exists a|].
    destruct (value_total N (normalized h) (Indicator.index i)
                          (Sector.index s)) as [x ->].
    simpl. apply IH. }
  apply H.
Qed.

Lemma scoreOf_spec (s : Sector.t) :
  getRankingValue N h s indicators = Ok (scoreOf N h indicators s).
Proof.
  unfold scoreOf. now destruct (getRankingValue_total s) as [v ->].
Qed.

Lemma collectRanks_spec (flt : option string) (ss : list Sector.t) :
  collectRanks N h flt indicators ss
  = Ok (map (fun s => (s, scoreOf N h indicators s))
            (filter (fun s => matchesFilter s flt) ss)).
Proof.
  induction ss as [|s ss IH]; simpl; [reflexivity|].
  destruct (matchesFilter s flt); [|assumption].
  rewrite scoreOf_spec, IH. reflexivity.
Qed.

Lemma slice0_map {A B : Type} (g : A -> B) (count : Z) (xs : list A) :
  slice0 count (map g xs) = map g (slice0 count xs).
Proof. unfold slice0. now rewrite length_map, firstn_map. Qed.

(** [getRanking] returns the passing sectors, sorted by descending score
    and cut by [slice]. *)
Lemma getRanking_spec (count : Z) (nameFilter : option string) :
  getRanking N h indicators count nameFilter
  = Ok (slice0 count
          (sort N (fun s1 s2 => Arith.sub N (scoreOf N h indicators s2)
                                            (scoreOf N h indicators s1))
                (passing h nameFilter))).
Proof.
  unfold getRanking, passing. rewrite collectRanks_spec. cbn [bind].
  rewrite (sort_map N (fun s => (s, scoreOf N h indicators s))
                    (fun r1 r2 => Arith.sub N (snd r2) (snd r1))).
  rewrite slice0_map, map_map. cbn [fst snd]. now rewrite map_id.
Qed.

End RankingFacts.



(** The same ranking on doubles: the tie between [A] and [B] keeps the
    order of the sector list. *)
Example ranking_on_doubles :
  let sector c i := Sector.mk c c i c "" None in
  let h := HeatmapResult.make binary64
             [sector "A" 0%Z; sector "B" 1%Z; sector "C" 2%Z]
             (Result.mk [[1; 1; 2]]%float [4]%float ["A"; "B"; "C"] ["I"]) in
  HeatmapResult.getRanking binary64 h [Indicator.mk "I" 0 "I"] 3 None
  = Ok [sector "C" 2%Z; sector "A" 0%Z; sector "B" 1%Z].
Proof. vm_compute. reflexivity. Qed.

Section SliceFacts.

Context {A : Type}.

Lemma slice0_all (count : Z) (xs : list A) :
  (Z.of_nat (List.length xs) <= count)%Z -> slice0 count xs = xs.
Proof.
  intros H. unfold slice0.
  destruct (count <? 0)%Z eqn:E; [apply Z.ltb_lt in E; lia|].
  apply firstn_all2. lia.
Qed.

(** [slice(0, count)] with a negative [count] drops from the end. *)
Lemma slice0_negative (count : Z) (xs : list A) :
  (count < 0)%Z ->
  slice0 count xs
  = firstn (List.length xs - Nat.min (Z.abs_nat count) (List.length xs)) xs.
Proof.
  intros H. unfold slice0. apply Z.ltb_lt in H as E. rewrite E.
  f_equal. lia.
Qed.

End SliceFacts.

(** C10. With any numbers and a negative [count], [getRanking] returns
    the ranked list of the passing sectors without its last
    [min(|count|, length)] entries. With [count = -1] and two or more
    passing sectors the result is not empty. The ranked list is what
    [getRanking] returns when [count] is the number of sectors. *)
Theorem ranking_negative_count {num : Type} (N : Arith.t num)
    (h : HeatmapResult.t num) (indicators : list Indicator.t) (count : Z)
    (nameFilter : option string) :
  (count < 0)%Z ->
  exists ranked,
    HeatmapResult.getRanking
      N h indicators (Z.of_nat (List.length (HeatmapResult.sectors h)))
      nameFilter = Ok ranked
    /\ Permutation ranked (passing h nameFilter)
    /\ HeatmapResult.getRanking N h indicators count nameFilter
       = Ok (firstn (List.length ranked
                     - Nat.min (Z.abs_nat count) (List.length ranked)) ranked)
    /\ (count = (-1)%Z -> (2 <= List.length (passing h nameFilter))%nat ->
        HeatmapResult.getRanking N h indicators count nameFilter <> Ok []).
Proof.
  intros Hneg. rewrite !getRanking_spec.
  set (key := scoreOf N h indicators).
  set (sorted := sort N (fun s1 s2 => Arith.sub N (key s2) (key s1))
                      (passing h nameFilter)).
  assert (Hlen : List.length sorted = List.length (passing h nameFilter))
    by apply sort_length.
  exists sorted. split; [|split; [|split]].
  - f_equal. apply slice0_all. rewrite Hlen. unfold passing.
    apply inj_le, filter_length_le.
  - apply sort_perm.
  - f_equal. now apply slice0_negative.
  - intros -> Htwo Hempty. injection Hempty as Hempty.
    rewrite slice0_negative in Hempty by lia.
    apply (f_equal (@List.length _)) in Hempty.
    rewrite length_firstn in Hempty.
    change (Z.abs_nat (-1)) with 1%nat in Hempty.
    cbn [List.length] in Hempty. lia.
Qed.

Lemma ranking_negative_count_witness :
  let sector c i := Sector.mk c c i c "" None in
  let h := HeatmapResult.make binary64
             [sector "A" 0%Z; sector "B" 1%Z; sector "C" 2%Z]
             (Result.mk [[1; 1; 2]]%float [4]%float ["A"; "B"; "C"] ["I"]) in
  HeatmapResult.getRanking binary64 h [Indicator.mk "I" 0 "I"] (-1) None
  <> Ok [].
Proof.
  intros sector h.
  destruct (ranking_negative_count binary64 h [Indicator.mk "I" 0 "I"] (-1)
                                   None)
    as (ranked & _ & _ & _ & Hne); [reflexivity|].
  apply Hne; [reflexivity|]. vm_compute. lia.
Defined.

(** ** Normalized values and shares *)

(** Reading the interface with [exact]. *)
Ltac exact_arith :=
  cbn [exact Arith.zero Arith.hundred Arith.add Arith.sub Arith.mul Arith.div
       Arith.opp Arith.abs Arith.max Arith.falsy Arith.isZero
       Arith.nonNegative Arith.positive] in *.

Section NormalizerFacts.

Import HeatmapResult.

Lemma Qabs_zero_iff (x : Q) : Qabs x == 0 <-> x == 0.
Proof.
  split; intros H.
  - pose proof (Qle_Qabs x) as H1. pose proof (Qle_Qabs (- x)) as H2.
    rewrite Qabs_opp in H2. lra.
  - rewrite H. reflexivity.
Qed.

Lemma Qabs_div (x t : Q) : Qabs (x / t) == Qabs x / Qabs t.
Proof. unfold Qdiv. now rewrite Qabs_Qmult, Qabs_Qinv. Qed.

Lemma Qabs_div_le (x t b : Q) :
  ~ t == 0 -> Qabs x <= b * Qabs t -> Qabs (x / t) <= b.
Proof.
  intros Ht Hx. rewrite Qabs_div. apply Qle_shift_div_r; [|assumption].
  pose proof (Qabs_nonneg t). rewrite <- Qabs_zero_iff in Ht. lra.
Qed.

Lemma div_zero_iff (x t : Q) : ~ t == 0 -> (x / t == 0 <-> x == 0).
Proof.
  intros Ht. split; intros H.
  - rewrite <- (Qmult_div_r x t Ht). unfold Qdiv in *.
    setoid_replace (t * (x * / t)) with (t * 0) by (rewrite H; reflexivity).
    ring.
  - rewrite H. unfold Qdiv. ring.
Qed.

(** An entry of [normalized] lies in [[-1, 1]] when the entry of the data
    does not exceed a nonzero total. *)
Lemma normalizeEntry_bound (total : option Q) (x : Q) :
  (forall t, total = Some t -> ~ t == 0 -> Qabs x <= Qabs t) ->
  -1 <= normalizeEntry exact total x <= 1.
Proof.
  intros H.
  assert (Habs : Qabs (normalizeEntry exact total x) <= 1).
  { unfold normalizeEntry. exact_arith.
    destruct total as [t|]; [|simpl; lra].
    destruct (Qeq_bool t 0) eqn:Et; [simpl; lra|].
    destruct (Qeq_bool x 0); simpl; [lra|].
    apply Qeq_bool_neq in Et. apply Qabs_div_le; [assumption|].
    rewrite Qmult_1_l. now apply H. }
  apply Qabs_Qle_condition in Habs. lra.
Qed.

Lemma fold_max_ge (row : list Q) (acc : Q) :
  acc <= fold_left (fun max x => Qmax max (Qabs x)) row acc.
Proof.
  revert acc. induction row as [|x row IH]; intros acc; simpl; [lra|].
  eapply Qle_trans; [apply Q.le_max_l | apply IH].
Qed.

Lemma fold_max_bound (row : list Q) (acc x : Q) :
  In x row -> Qabs x <= fold_left (fun max x => Qmax max (Qabs x)) row acc.
Proof.
  revert acc. induction row as [|y row IH]; intros acc Hin; [easy|].
  simpl. destruct Hin as [-> | Hin]; [|now apply IH].
  eapply Qle_trans; [apply Q.le_max_r | apply fold_max_ge].
Qed.

Lemma fold_max_attained (row : list Q) (acc : Q) :
  fold_left (fun max x => Qmax max (Qabs x)) row acc == acc
  \/ exists x, In x row
       /\ Qabs x == fold_left (fun max x => Qmax max (Qabs x)) row acc.
Proof.
  revert acc. induction row as [|y row IH]; intros acc; simpl.
  - left. reflexivity.
  - destruct (IH (Qmax acc (Qabs y))) as [H | (x & Hin & H)].
    + destruct (Q.max_spec acc (Qabs y)) as [[_ E] | [_ E]].
      * right. exists y. split; [now left|]. rewrite H, E. reflexivity.
      * left. rewrite H, E. reflexivity.
    + right. exists x. split; [now right | assumption].
Qed.

Lemma maxIndicatorValue_fold (row : list Q) :
  maxIndicatorValue exact row
  = fold_left (fun max x => Qmax max (Qabs x)) row 0.
Proof. now destruct row. Qed.

(** [maxIndicatorValue] is the largest absolute value of the row. *)
Lemma maxIndicatorValue_bound (row : list Q) (x : Q) :
  In x row -> Qabs x <= maxIndicatorValue exact row.
Proof. rewrite maxIndicatorValue_fold. apply fold_max_bound. Qed.

Lemma maxIndicatorValue_attained (row : list Q) :
  row <> [] -> exists x, In x row /\ Qabs x == maxIndicatorValue exact row.
Proof.
  intros Hne. rewrite maxIndicatorValue_fold.
  destruct (fold_max_attained row 0) as [H | H]; [|assumption].
  destruct row as [|y row]; [contradiction|].
  exists y. split; [now left|].
  pose proof (fold_max_bound (y :: row) 0 y (or_introl eq_refl)).
  pose proof (Qabs_nonneg y). lra.
Qed.

(** The share of an entry that its row maximum bounds. *)
Lemma shareEntry_spec (max x : Q) :
  Qabs x <= max ->
  -100 <= shareEntry exact max x <= 100
  /\ (shareEntry exact max x == 0 <-> x == 0)
  /\ (~ max == 0 -> shareEntry exact max x == 100 * x / max).
Proof.
  intros Hx. unfold shareEntry. exact_arith.
  destruct (Qeq_bool x 0) eqn:Ex.
  - apply Qeq_bool_iff in Ex. repeat split; try lra; try easy.
    intros _. rewrite Ex. unfold Qdiv. ring.
  - apply Qeq_bool_neq in Ex.
    assert (Hmax : ~ max == 0).
    { rewrite <- Qabs_zero_iff in Ex. pose proof (Qabs_nonneg x). lra. }
    destruct (Qeq_bool max 0) eqn:Em;
      [apply Qeq_bool_iff in Em; contradiction|].
    split; [|split].
    + assert (Habs : Qabs (100 * x / max) <= 100).
      { apply Qabs_div_le; [assumption|].
        rewrite Qabs_Qmult. pose proof (Qabs_nonneg x).
        rewrite (Qabs_pos max) by lra. rewrite (Qabs_pos 100) by lra. lra. }
      apply Qabs_Qle_condition in Habs. lra.
    + rewrite (div_zero_iff _ _ Hmax). split; intros H; lra.
    + reflexivity.
Qed.

End NormalizerFacts.

Section MapiFacts.

Context {A B : Type} (f : A -> nat -> B).

Lemma nth_error_mapi_from (k i : nat) (xs : list A) :
  nth_error (mapi_from f k xs) i
  = option_map (fun x => f x (k + i)%nat) (nth_error xs i).
Proof.
  revert k i. induction xs as [|x xs IH]; intros k [|i]; simpl;
    try reflexivity.
  - now rewrite Nat.add_0_r.
  - rewrite IH. now rewrite Nat.add_succ_r.
Qed.

Lemma nth_error_mapi (i : nat) (xs : list A) :
  nth_error (mapi f xs) i = option_map (fun x => f x i) (nth_error xs i).
Proof. apply nth_error_mapi_from. Qed.

Lemma length_mapi (xs : list A) : List.length (mapi f xs) = List.length xs.
Proof.
  unfold mapi. generalize 0%nat.
  induction xs as [|x xs IH]; intros k; simpl; [reflexivity | now rewrite IH].
Qed.

End MapiFacts.

Lemma shares_row_spec (max : Q) (nrow : list Q) :
  Forall (fun n => -1 <= n <= 1) nrow ->
  (forall n, In n nrow -> Qabs n <= max) ->
  Forall2
    (fun n s =>
       -1 <= n <= 1
       /\ -100 <= s <= 100
       /\ (s == 0 <-> n == 0)
       /\ (~ max == 0 -> s == 100 * n / max))
    nrow (map (HeatmapResult.shareEntry exact max) nrow).
Proof.
  induction nrow as [|n nrow IH]; intros Hbound Hle; simpl; constructor.
  - apply Forall_inv in Hbound as Hb.
    destruct (shareEntry_spec max n (Hle n (or_introl eq_refl)))
      as (H1 & H2 & H3).
    repeat split; try apply Hb; try apply H1; try apply H2; try apply H3.
  - apply IH.
    + now apply Forall_inv_tail in Hbound.
    + intros m Hm. apply Hle. now right.
Qed.

(** C5, as stated, fails for the numbers of JavaScript: the row [[7, 2]]
    with total [9] is well formed, and the share of its first entry,
    [100 * (7 / 9) / (7 / 9)] in double precision, is above [100]. *)
Lemma share_above_hundred :
  let r := Result.mk [[7; 2]%float] [9%float] ["a"; "b"] ["i"] in
  let h := HeatmapResult.make binary64 [] r in
  forallb (fun x => PrimFloat.leb (PrimFloat.abs x) (PrimFloat.abs 9))
          [7; 2]%float = true
  /\ map (map (PrimFloat.ltb 100)) (HeatmapResult.shares h)
     = [[true; false]].
Proof. split; vm_compute; reflexivity. Qed.

(** C5, amended. In exact arithmetic, for a result whose rows are well
    formed, the constructor computes [shares] with the shape of
    [normalized], and for every entry [n] of [normalized] and the entry
    [s] of [shares] at the same place: [n] lies in [[-1, 1]], [s] lies in
    [[-100, 100]], [s] is [0] exactly when [n] is, and
    [s = 100 * n / rowMax] when the row maximum is not [0]. The row maximum
    [maxIndicatorValue] bounds the absolute values of the row and is one of
    them. *)
Theorem normalized_and_shares_bounds (sectors : list Sector.t)
    (r : Result.t Q) :
  wellFormed r ->
  let h := HeatmapResult.make exact sectors r in
  List.length (HeatmapResult.shares h)
  = List.length (HeatmapResult.normalized h)
  /\ forall i nrow,
       nth_error (HeatmapResult.normalized h) i = Some nrow ->
       (forall n, In n nrow ->
                  Qabs n <= HeatmapResult.maxIndicatorValue exact nrow)
       /\ (nrow <> [] ->
           exists n, In n nrow
                     /\ Qabs n == HeatmapResult.maxIndicatorValue exact nrow)
       /\ exists srow,
            nth_error (HeatmapResult.shares h) i = Some srow
            /\ Forall2
                 (fun n s =>
                    -1 <= n <= 1
                    /\ -100 <= s <= 100
                    /\ (s == 0 <-> n == 0)
                    /\ (~ HeatmapResult.maxIndicatorValue exact nrow == 0 ->
                        s == 100 * n
                             / HeatmapResult.maxIndicatorValue exact nrow))
                 nrow srow.
Proof.
  intros Hwf h. split; [apply length_mapi|].
  intros i nrow Hn.
  split; [intros n; apply maxIndicatorValue_bound|].
  split; [apply maxIndicatorValue_attained|].
  cbn [h HeatmapResult.make HeatmapResult.normalized HeatmapResult.shares]
    in *.
  rewrite nth_error_mapi, Hn. cbn [option_map].
  rewrite (nth_error_nth _ _ (Arith.zero exact)
             (eq_trans (nth_error_map _ _ _)
                       (f_equal (option_map _) Hn))).
  (* the entries of the row are normalized entries of the data *)
  unfold HeatmapResult.normalize in Hn. rewrite nth_error_mapi in Hn.
  destruct (nth_error (Result.data r) i) as [row|] eqn:Hrow; [|discriminate].
  injection Hn as Hn.
  assert (Hbound : Forall (fun n => -1 <= n <= 1) nrow).
  { subst nrow. apply Forall_forall. intros n Hin.
    apply in_map_iff in Hin as (x & <- & Hx).
    apply normalizeEntry_bound. intros t Ht Hnz.
    now apply (Hwf i row t x). }
  eexists. split; [reflexivity|].
  replace (match nrow with
           | [] => []
           | _ :: _ =>
               map (HeatmapResult.shareEntry exact
                      (HeatmapResult.maxIndicatorValue exact nrow)) nrow
           end)
    with (map (HeatmapResult.shareEntry exact
                 (HeatmapResult.maxIndicatorValue exact nrow)) nrow)
    by now destruct nrow.
  apply shares_row_spec; [assumption|].
  intros n. apply maxIndicatorValue_bound.
Qed.

Lemma normalized_and_shares_bounds_witness :
  let r := Result.mk [[7; 2]; [0; 3]] [9; 0] ["a"; "b"] ["i"; "j"] in
  wellFormed r
  /\ List.length (HeatmapResult.shares (HeatmapResult.make exact [] r))
     = List.length (HeatmapResult.normalized (HeatmapResult.make exact [] r)).
Proof.
  intros r.
  assert (Hwf : wellFormed r).
  { intros i row total x Hrow Htotal Hnz Hin.
    destruct i as [|[|i]]; simpl in Hrow, Htotal.
    - injection Hrow as <-. injection Htotal as <-.
      destruct Hin as [<- | [<- | []]]; vm_compute; discriminate.
    - injection Htotal as <-. exfalso. apply Hnz. reflexivity.
    - destruct i; discriminate. }
  split; [exact Hwf|].
  exact (proj1 (normalized_and_shares_bounds [] r Hwf)).
Defined.

(** ** Aggregation over regions *)

Section AggregationFacts.

Lemma fold_add_acc (row : list Q) (acc : Q) :
  fold_left Qplus row acc == acc + fold_left Qplus row 0.
Proof.
  revert acc. induction row as [|x row IH]; intros acc; simpl; [ring|].
  rewrite (IH (acc + x)), (IH (0 + x)). ring.
Qed.
















End AggregationFacts.





(** ** Reading a configuration from URLs *)

Section UrlConfigFacts.

Lemma updateConfig_app (c : Config) (ps qs : list (string * string)) :
  updateConfig c (ps ++ qs) = updateConfig (updateConfig c ps) qs.
Proof. apply fold_left_app. Qed.

Lemma parseUrlConfig_fold (href : string) (scriptSrcs : list string)
    (withScripts : bool) :
  parseUrlConfig href scriptSrcs withScripts
  = updateConfig emptyConfig
      (urlParameters (configUrls href scriptSrcs withScripts)).
Proof.
  unfold parseUrlConfig. fold (configUrls href scriptSrcs withScripts).
  generalize (configUrls href scriptSrcs withScripts) emptyConfig.
  intros urls. induction urls as [|url urls IH]; intros c; simpl;
    [reflexivity|].
  now rewrite IH, !updateConfig_app.
Qed.





End UrlConfigFacts.

(** C1. A parameter [year] whose value is no number does not leave the
    field unset: [parseInt] returns [NaN] instead of throwing, the [catch]
    block that deletes the field is never entered, and the field is set to
    [NaN]. Whenever the configuration holds no truthy year, the field is
    set to what [parseInt] returns; for the text of an integer this is the
    integer. *)
Theorem year_parameter_always_sets_field :
  (forall c val,
     year (updateConfig c [("year", val)])
     = if JsNumber.truthy (year c) then year c
       else Some (JsNumber.parseInt val))
  /\ year (updateConfig emptyConfig [("year", "abc")]) = Some NaN
  /\ year (updateConfig emptyConfig [("year", "2020")]) = Some (Int 2020).
Proof.
  split; [|split; reflexivity].
  intros c val. simpl. now destruct (JsNumber.truthy (year c)).
Qed.




(** ** Splitting, joining and trimming *)

Section StringFacts.

Import JsString.

Lemma hasChar_append (c : ascii) (a b : string) :
  hasChar c (a ++ b) = hasChar c a || hasChar c b.
Proof.
  induction a as [|x a IH]; simpl; [reflexivity|].
  now rewrite IH, orb_assoc.
Qed.

Lemma split_no_sep (sep : ascii) (s : string) :
  hasChar sep s = false -> split sep s = [s].
Proof.
  induction s as [|c s IH]; simpl; [reflexivity|].
  intros H. apply orb_false_elim in H as [Hc Hs].
  now rewrite Hc, (IH Hs).
Qed.

Lemma split_app_sep (sep : ascii) (a b : string) :
  hasChar sep a = false ->
  split sep (a ++ String sep b) = a :: split sep b.
Proof.
  induction a as [|c a IH]; simpl; intros H.
  - now rewrite Ascii.eqb_refl.
  - apply orb_false_elim in H as [Hc Ha]. now rewrite Hc, (IH Ha).
Qed.

Lemma split_join (sep : ascii) (xs : list string) :
  xs <> [] ->
  forallb (fun x => negb (hasChar sep x)) xs = true ->
  split sep (join (String sep EmptyString) xs) = xs.
Proof.
  induction xs as [|x xs IH]; [easy|]. intros _ Hall.
  simpl in Hall. apply andb_true_iff in Hall as [Hx Hxs].
  apply negb_true_iff in Hx.
  destruct xs as [|y xs]; [now apply split_no_sep|].
  change (join (String sep EmptyString) (x :: y :: xs))
    with (x ++ String sep (join (String sep EmptyString) (y :: xs)))%string.
  rewrite split_app_sep by assumption. f_equal. now apply IH.
Qed.

Lemma hasChar_join (c : ascii) (sep : string) (xs : list string) :
  hasChar c sep = false ->
  forallb (fun x => negb (hasChar c x)) xs = true ->
  hasChar c (join sep xs) = false.
Proof.
  intros Hsep. induction xs as [|x xs IH]; [reflexivity|]. intros Hall.
  simpl in Hall. apply andb_true_iff in Hall as [Hx Hxs].
  apply negb_true_iff in Hx.
  destruct xs as [|y xs]; [assumption|].
  change (join sep (x :: y :: xs))
    with (x ++ sep ++ join sep (y :: xs))%string.
  now rewrite !hasChar_append, Hx, Hsep, (IH Hxs).
Qed.

Lemma allChars_hasChar (p : ascii -> bool) (c : ascii) (s : string) :
  allChars p s = true -> p c = false -> hasChar c s = false.
Proof.
  intros Hall Hc. induction s as [|x s IH]; [reflexivity|].
  simpl in *. apply andb_true_iff in Hall as [Hx Hs].
  rewrite (IH Hs), orb_false_r.
  destruct (Ascii.eqb x c) eqn:E; [|reflexivity].
  apply Ascii.eqb_eq in E. congruence.
Qed.

(** A string without white space is its own trim. *)
Lemma trim_no_whitespace (s : string) :
  allChars (fun c => negb (isWhiteSpace c)) s = true -> trim s = s.
Proof.
  intros Hall. unfold trim.
  assert (Hstart : trimStart s = s).
  { destruct s as [|c s]; [reflexivity|]. simpl in *.
    apply andb_true_iff in Hall as [Hc _]. apply negb_true_iff in Hc.
    now rewrite Hc. }
  rewrite Hstart. induction s as [|c s IH]; [reflexivity|].
  simpl in Hall. apply andb_true_iff in Hall as [Hc Hs].
  apply negb_true_iff in Hc. simpl. rewrite IH.
  - destruct s; [now rewrite Hc | reflexivity].
  - assumption.
  - destruct s as [|c' s]; [reflexivity|]. simpl in *.
    apply andb_true_iff in Hs as [Hc' _]. apply negb_true_iff in Hc'.
    now rewrite Hc'.
Qed.

Lemma trimmed_eq (s : string) : trimmed s = true -> trim s = s.
Proof. apply String.eqb_eq. Qed.

End StringFacts.

(** ** Printing and parsing integers *)

Section NumberFacts.

Import JsNumber.

Lemma readDigits_uint_acc (d : Decimal.uint) (acc : positive) :
  readDigits (NilEmpty.string_of_uint d) (Some (Z.pos acc))
  = Some (Z.pos (Pos.of_uint_acc d acc)).
Proof.
  revert acc. induction d as [|d IH|d IH|d IH|d IH|d IH|d IH|d IH|d IH|d IH|d IH];
    intros acc; [reflexivity|..];
    cbn [NilEmpty.string_of_uint readDigits Pos.of_uint_acc];
    rewrite <- IH;
    match goal with
    | |- context [digitOf ?c] =>
        let v := eval vm_compute in (digitOf c) in
        change (digitOf c) with v
    end;
    cbv iota; do 2 f_equal; lia.
Qed.

Lemma readDigits_uint (d : Decimal.uint) :
  readDigits (NilEmpty.string_of_uint d) (Some 0%Z)
  = Some (Z.of_N (Pos.of_uint d)).
Proof.
  induction d as [|d IH|d IH|d IH|d IH|d IH|d IH|d IH|d IH|d IH|d IH];
    [reflexivity | exact IH | ..];
    cbn [NilEmpty.string_of_uint readDigits Pos.of_uint];
    match goal with
    | |- context [digitOf ?c] =>
        let v := eval vm_compute in (digitOf c) in
        change (digitOf c) with v
    end;
    cbv iota; apply (readDigits_uint_acc d).
Qed.

Lemma readDigits_start (d : Decimal.uint) :
  d <> Decimal.Nil ->
  readDigits (NilEmpty.string_of_uint d) None
  = readDigits (NilEmpty.string_of_uint d) (Some 0%Z).
Proof. destruct d; [contradiction | reflexivity ..]. Qed.

Lemma readDigits_positive (p : positive) :
  readDigits (NilEmpty.string_of_uint (Pos.to_uint p)) None
  = Some (Z.pos p).
Proof.
  rewrite readDigits_start by apply Unsigned.to_uint_nonnil.
  now rewrite readDigits_uint, Unsigned.of_to.
Qed.

Lemma string_of_positive (p : positive) :
  NilZero.string_of_uint (Pos.to_uint p)
  = NilEmpty.string_of_uint (Pos.to_uint p).
Proof.
  pose proof (Unsigned.to_uint_nonnil p) as H.
  now destruct (Pos.to_uint p).
Qed.

Lemma parseInt_digit_first (c : ascii) (s : string) (k : Z) :
  digitOf c = Some k ->
  parseInt (String c s)
  = match readDigits (String c s) None with
    | None => NaN
    | Some m => Int m
    end.
Proof.
  destruct c as [[] [] [] [] [] [] [] []]; try discriminate; reflexivity.
Qed.

Lemma uint_digit_first (d : Decimal.uint) :
  d <> Decimal.Nil ->
  exists c s k, NilEmpty.string_of_uint d = String c s /\ digitOf c = Some k.
Proof.
  destruct d; [contradiction | ..]; intros _; do 3 eexists;
    (split; [reflexivity | reflexivity]).
Qed.

(** [parseInt] reads back the integer that a template literal prints. *)
Lemma parseInt_toString (z : Z) : parseInt (toString (Int z)) = Int z.
Proof.
  destruct z as [|p|p]; [reflexivity | |].
  - cbn [toString Z.to_int NilZero.string_of_int].
    rewrite string_of_positive.
    destruct (uint_digit_first (Pos.to_uint p) (Unsigned.to_uint_nonnil p))
      as (c & s & k & Hs & Hk).
    pose proof (readDigits_positive p) as Hread. rewrite Hs in *.
    now rewrite (parseInt_digit_first c s k Hk), Hread.
  - cbn [toString Z.to_int NilZero.string_of_int].
    rewrite string_of_positive. unfold parseInt.
    cbn [JsString.trimStart].
    change (JsString.isWhiteSpace "-") with false. cbv iota.
    now rewrite readDigits_positive.
Qed.

Lemma allChars_uint (d : Decimal.uint) :
  allChars numericChar (NilEmpty.string_of_uint d) = true.
Proof. induction d; simpl; assumption || reflexivity. Qed.

Lemma allChars_toString (z : Z) :
  allChars numericChar (toString (Int z)) = true.
Proof.
  destruct z as [|p|p]; [reflexivity | |];
    cbn [toString Z.to_int NilZero.string_of_int];
    rewrite string_of_positive; [|cbn [allChars]; rewrite andb_true_iff; split;
                                  [reflexivity|]];
    apply allChars_uint.
Qed.

Lemma allChars_impl (p q : ascii -> bool) (s : string) :
  (forall c, p c = true -> q c = true) ->
  allChars p s = true -> allChars q s = true.
Proof.
  intros Hpq. induction s as [|c s IH]; [reflexivity|]. simpl.
  rewrite !andb_true_iff. intros [Hc Hs]. split; [now apply Hpq | now apply IH].
Qed.

Lemma numericChar_not_whitespace (c : ascii) :
  numericChar c = true -> negb (JsString.isWhiteSpace c) = true.
Proof.
  destruct c as [[] [] [] [] [] [] [] []]; try discriminate; reflexivity.
Qed.

(** The rendering of an integer has none of [&], [#], [=] and no white
    space. *)
Lemma plainText_toString (z : Z) : plainText (toString (Int z)) = true.
Proof.
  pose proof (allChars_toString z) as H. unfold plainText.
  rewrite !(allChars_hasChar numericChar _ _ H) by reflexivity.
  unfold trimmed. rewrite trim_no_whitespace; [apply String.eqb_refl|].
  apply (allChars_impl numericChar); [apply numericChar_not_whitespace|].
  exact H.
Qed.

End NumberFacts.

(** ** Writing a configuration to the hash and reading it back *)

Section RoundTripFacts.

Lemma updateHash_pairs (c : Config) :
  updateHash c
  = ("#" ++ JsString.join "&" (map pairString (hashPairs c)))%string.
Proof.
  unfold updateHash, hashPairs.
  destruct c as [src m s i p a y l]. cbn [sectors indicators perspective
    analysis year location model].
  destruct s as [[|s0 s]|], i as [[|i0 i]|], a as [a|], p as [p|];
    (destruct y as [y|]; [destruct (JsNumber.truthy (Some y))|]);
    destruct l as [[|l0 l]|], m as [[|m0 m]|]; reflexivity.
Qed.

Lemma updateHash_ignores_source (c : Config) (s : option Identity) :
  updateHash (set_source c s) = updateHash c.
Proof. reflexivity. Qed.

(** A parameter that survives the round trip: a key of [updateHash] and a
    value without [&], [#], [=] and without white space at its ends. *)
Let goodPair (kv : string * string) : Prop :=
  hashKey (fst kv) = true /\ plainText (snd kv) = true.

Lemma plainText_codes (xs : list string) :
  portableCodes xs = true -> plainText (JsString.join "," xs) = true.
Proof.
  unfold portableCodes, plainText. rewrite !andb_true_iff.
  intros [[_ Hall] Htrim].
  assert (Hno : forall c,
             (forall x, plainCode x = true -> negb (hasChar c x) = true) ->
             hasChar c "," = false ->
             hasChar c (JsString.join "," xs) = false).
  { intros c Hc Hsep. apply hasChar_join; [assumption|].
    rewrite forallb_forall in *. intros x Hx. now apply Hc, Hall. }
  repeat split; try assumption; apply negb_true_iff, Hno;
    try reflexivity; intros x; unfold plainCode; rewrite !andb_true_iff;
    tauto.
Qed.

Lemma hashPairs_good (c : Config) :
  portableConfig c = true -> Forall goodPair (hashPairs c).
Proof.
  unfold portableConfig, hashPairs. intros H.
  apply andb_prop in H as [H Hm]. apply andb_prop in H as [H Hl].
  apply andb_prop in H as [H Hy]. apply andb_prop in H as [Hs Hi].
  repeat (apply (proj2 (Forall_app _ _ _)); split).
  - destruct (sectors c) as [[|x xs]|]; constructor; [|constructor].
    split; [reflexivity | now apply plainText_codes].
  - destruct (indicators c) as [[|x xs]|]; constructor; [|constructor].
    split; [reflexivity | now apply plainText_codes].
  - destruct (analysis c) as [[]|]; constructor; try constructor;
      split; reflexivity.
  - destruct (perspective c) as [[]|]; constructor; try constructor;
      split; reflexivity.
  - destruct (year c) as [[|z]|]; simpl; try constructor.
    destruct (negb (z =? 0)%Z); constructor; [|constructor].
    split; [reflexivity | apply plainText_toString].
  - destruct (location c) as [[|x l]|]; constructor; [|constructor].
    simpl in Hl. split; [reflexivity | exact Hl].
  - destruct (model c) as [[|x m]|]; constructor; [|constructor].
    simpl in Hm. split; [reflexivity | exact Hm].
Qed.

Lemma hashKey_cases (k : string) :
  hashKey k = true ->
  k = "sectors" \/ k = "indicators" \/ k = "type" \/ k = "perspective"
  \/ k = "year" \/ k = "location" \/ k = "model".
Proof.
  unfold hashKey. simpl. rewrite !orb_true_iff, !String.eqb_eq.
  intuition discriminate.
Qed.

Lemma goodPair_string (kv : string * string) :
  goodPair kv ->
  hasChar "&" (pairString kv) = false
  /\ hasChar "#" (pairString kv) = false
  /\ JsString.split "=" (pairString kv) = [fst kv; snd kv]
  /\ JsString.toLowerCase (JsString.trim (fst kv)) = fst kv
  /\ JsString.trim (snd kv) = snd kv.
Proof.
  destruct kv as [k v]. unfold goodPair, pairString, plainText. simpl.
  rewrite !andb_true_iff, !negb_true_iff.
  intros [Hk [[[Hamp Hhash] Heq] Htrim]].
  apply hashKey_cases in Hk.
  assert (Hsplit : hasChar "=" k = false ->
                   JsString.split "=" (k ++ String "=" v) = [k; v]).
  { intros Hno. now rewrite split_app_sep, (split_no_sep _ _ Heq). }
  rewrite !hasChar_append. cbn [hasChar].
  rewrite Hamp, Hhash, (trimmed_eq v Htrim).
  destruct Hk as [-> | [-> | [-> | [-> | [-> | [-> | ->]]]]]];
    (repeat split; try reflexivity; now apply Hsplit).
Qed.

Lemma parsePairs (kvs : list (string * string)) :
  Forall goodPair kvs ->
  flat_map
    (fun pair =>
       match JsString.split "=" pair with
       | k :: v :: _ =>
           [(JsString.toLowerCase (JsString.trim k), JsString.trim v)]
       | _ => []
       end)
    (map pairString kvs)
  = kvs.
Proof.
  induction 1 as [|kv kvs Hkv _ IH]; [reflexivity|].
  destruct (goodPair_string kv Hkv) as (_ & _ & Hsplit & Hk & Hv).
  cbn [map flat_map]. rewrite Hsplit, Hk, Hv, IH. now destruct kv.
Qed.

Lemma pairStrings_plain (c : ascii) (kvs : list (string * string)) :
  Forall (fun kv => hasChar c (pairString kv) = false) kvs ->
  forallb (fun x => negb (hasChar c x)) (map pairString kvs) = true.
Proof.
  induction 1 as [|kv kvs Hkv _ IH]; [reflexivity|].
  cbn [map forallb]. now rewrite Hkv, IH.
Qed.

(** [getParameters] reads back the parameters that [updateHash] joins. *)
Lemma getParameters_pairs (kvs : list (string * string)) :
  Forall goodPair kvs ->
  getParameters (Some (JsString.join "&" (map pairString kvs))) = kvs.
Proof.
  intros Hgood.
  destruct kvs as [|kv kvs]; [reflexivity|].
  assert (Hamp : Forall (fun kv => hasChar "&" (pairString kv) = false)
                        (kv :: kvs)).
  { eapply Forall_impl; [|exact Hgood]. intros p Hp.
    now destruct (goodPair_string p Hp). }
  destruct (JsString.join "&" (map pairString (kv :: kvs))) as [|ch body]
    eqn:Hjoin.
  - exfalso. destruct kv as [k v].
    assert (Hin : hasChar "=" (JsString.join "&"
                                 (map pairString ((k, v) :: kvs))) = true).
    { cbn [map]. unfold pairString at 1. cbn [fst snd].
      destruct (map pairString kvs); cbn [JsString.join];
        rewrite !hasChar_append; cbn [hasChar]; rewrite Ascii.eqb_refl;
        now rewrite ?orb_true_r. }
    rewrite Hjoin in Hin. discriminate.
  - unfold getParameters. rewrite <- Hjoin.
    rewrite split_join; [now apply parsePairs | discriminate |].
    now apply pairStrings_plain.
Qed.

Lemma getHashPart_hash (base body : string) :
  hasChar "#" base = false -> hasChar "#" body = false ->
  getHashPart (base ++ String "#" body) = Some body.
Proof.
  intros Hbase Hbody. unfold getHashPart.
  rewrite split_app_sep, (split_no_sep _ _ Hbody) by assumption.
  now destruct base.
Qed.

Lemma getParameterPart_none (base body : string) :
  hasChar "#" base = false -> hasChar "#" body = false ->
  hasChar "?" base = false ->
  getParameterPart (base ++ String "#" body) = None.
Proof.
  intros Hbase Hbody Hquery. unfold getParameterPart.
  rewrite split_app_sep, (split_no_sep _ _ Hbody) by assumption.
  cbn [List.length Nat.ltb Nat.leb Nat.sub nth].
  rewrite (split_no_sep _ _ Hquery). now destruct base.
Qed.

(** One parameter with a literal key: decide the [switch]. *)
Ltac decide_key :=
  cbn [updateConfig fold_left]; unfold updateConfigParam;
  repeat match goal with
         | |- context [String.eqb ?a ?b] =>
             let v := eval vm_compute in (String.eqb a b) in
             change (String.eqb a b) with v
         end;
  cbn [orb]; cbv iota.

Lemma split_codes (xs : list string) :
  portableCodes xs = true ->
  JsString.split "," (JsString.join "," xs) = xs.
Proof.
  unfold portableCodes. intros H.
  apply andb_prop in H as [H _]. apply andb_prop in H as [Hne Hall].
  apply split_join; [now destruct xs|].
  rewrite forallb_forall in *. intros x Hx. specialize (Hall x Hx).
  unfold plainCode in Hall.
  apply andb_prop in Hall as [Hall _]. apply andb_prop in Hall as [Hall _].
  now apply andb_prop in Hall as [Hall _].
Qed.

Lemma decode_sectors (c0 c : Config) :
  sectors c0 = None -> optionAll portableCodes (sectors c) = true ->
  updateConfig c0
    match sectors c with
    | Some ((_ :: _) as xs) => [("sectors", JsString.join "," xs)]
    | _ => []
    end
  = set_sectors c0 (sectors c).
Proof.
  intros H0 H. destruct (sectors c) as [[|x xs]|]; simpl in H.
  - discriminate.
  - decide_key. rewrite H0. now rewrite (split_codes (x :: xs) H).
  - destruct c0. simpl in *. now subst.
Qed.

Lemma decode_indicators (c0 c : Config) :
  indicators c0 = None -> optionAll portableCodes (indicators c) = true ->
  updateConfig c0
    match indicators c with
    | Some ((_ :: _) as xs) => [("indicators", JsString.join "," xs)]
    | _ => []
    end
  = set_indicators c0 (indicators c).
Proof.
  intros H0 H. destruct (indicators c) as [[|x xs]|]; simpl in H.
  - discriminate.
  - decide_key. rewrite H0. now rewrite (split_codes (x :: xs) H).
  - destruct c0. simpl in *. now subst.
Qed.

Lemma decode_analysis (c0 c : Config) :
  analysis c0 = None ->
  updateConfig c0
    match analysis c with
    | Some a => [("type", DemandType_toString a)]
    | None => []
    end
  = set_analysis c0 (analysis c).
Proof.
  intros H0. destruct (analysis c) as [[]|].
  - decide_key. now rewrite H0.
  - decide_key. now rewrite H0.
  - destruct c0. simpl in *. now subst.
Qed.

Lemma decode_perspective (c0 c : Config) :
  perspective c0 = None ->
  updateConfig c0
    match perspective c with
    | Some p => [("perspective", ResultPerspective_toString p)]
    | None => []
    end
  = set_perspective c0 (perspective c).
Proof.
  intros H0. destruct (perspective c) as [[]|].
  - decide_key. now rewrite H0.
  - decide_key. now rewrite H0.
  - decide_key. now rewrite H0.
  - destruct c0. simpl in *. now subst.
Qed.

Lemma decode_year (c0 c : Config) :
  year c0 = None -> optionAll safeYear (year c) = true ->
  updateConfig c0
    match year c with
    | Some y => if JsNumber.truthy (Some y)
                then [("year", JsNumber.toString y)] else []
    | None => []
    end
  = set_year c0 (year c).
Proof.
  intros H0 H. destruct (year c) as [[|z]|]; simpl in H.
  - discriminate.
  - apply andb_prop in H as [Hz _]. cbn [JsNumber.truthy]. rewrite Hz.
    decide_key. rewrite H0.
    cbn [JsNumber.truthy]. now rewrite parseInt_toString.
  - destruct c0. simpl in *. now subst.
Qed.

Lemma decode_location (c0 c : Config) :
  location c0 = None ->
  updateConfig c0
    match location c with
    | Some (String _ _ as l) => [("location", l)]
    | _ => []
    end
  = set_location c0
      (match location c with Some EmptyString => None | o => o end).
Proof.
  intros H0. destruct (location c) as [[|x l]|].
  - destruct c0. simpl in *. now subst.
  - decide_key. now rewrite H0.
  - destruct c0. simpl in *. now subst.
Qed.

Lemma decode_model (c0 c : Config) :
  model c0 = None ->
  updateConfig c0
    match model c with
    | Some (String _ _ as m) => [("model", m)]
    | _ => []
    end
  = set_model c0 (match model c with Some EmptyString => None | o => o end).
Proof.
  intros H0. destruct (model c) as [[|x m]|].
  - destruct c0. simpl in *. now subst.
  - decide_key. now rewrite H0.
  - destruct c0. simpl in *. now subst.
Qed.

(** The parameters of a portable configuration decode to its fields. *)
Lemma decode_hashPairs (c : Config) :
  portableConfig c = true ->
  updateConfig emptyConfig (hashPairs c) = set_source c None.
Proof.
  unfold portableConfig. intros H.
  apply andb_prop in H as [H Hm]. apply andb_prop in H as [H Hl].
  apply andb_prop in H as [H Hy]. apply andb_prop in H as [Hs Hi].
  unfold hashPairs. rewrite !updateConfig_app.
  rewrite decode_sectors by (reflexivity || assumption).
  rewrite decode_indicators by (reflexivity || assumption).
  rewrite decode_analysis by reflexivity.
  rewrite decode_perspective by reflexivity.
  rewrite decode_year by (reflexivity || assumption).
  rewrite decode_location by reflexivity.
  rewrite decode_model by reflexivity.
  destruct c as [src m s i p a y l]. cbn in *.
  destruct l as [[|]|], m as [[|]|]; try discriminate; reflexivity.
Qed.

End RoundTripFacts.

(** C3, as stated, fails: a location with [&] is a non-empty string, and
    the hash that encodes it decodes to a shorter location. *)
Lemma location_not_round_tripped :
  let c := mkConfig (Some 1%nat) (Some "M1") (Some ["a"; "b"]) (Some ["x"])
                    (Some final) (Some Production) (Some (Int 2020))
                    (Some "a&b") in
  statedConfig c = true
  /\ updateHash c
     = "#sectors=a,b&indicators=x&type=Production&perspective=final&year=2020&location=a&b&model=M1"
  /\ location (parseUrlConfig (updateHash c) [] false) = Some "a"
  /\ location (parseUrlConfig (updateHash c) [] false) <> location c.
Proof.
  intros c. split; [|split; [|split]]; try (vm_compute; reflexivity).
  vm_compute. discriminate.
Qed.

(** C3, amended. Take a configuration whose fields are absent or as
    follows: sectors and indicators are non-empty lists of codes without
    [,], [&], [#], [=] whose comma-joined text neither starts nor ends with
    white space; the year is a non-zero safe integer; the location and the
    model are non-empty strings without [&], [#], [=] that neither start
    nor end with white space. Encoding it with [updateHash] and decoding
    the hash with [parseUrlConfig], on a page URL without hash and query,
    returns every field but [source], which is absent. The encoded string
    does not depend on [source]. *)
Theorem config_round_trip (base : string) (c : Config)
    (scriptSrcs : list string) :
  hasChar "#" base = false ->
  hasChar "?" base = false ->
  portableConfig c = true ->
  parseUrlConfig (base ++ updateHash c) scriptSrcs false = set_source c None
  /\ forall s, updateHash (set_source c s) = updateHash c.
Proof.
  intros Hhash Hquery Hc. split; [|reflexivity].
  pose proof (hashPairs_good c Hc) as Hgood.
  assert (Hbody : hasChar "#" (JsString.join "&" (map pairString (hashPairs c)))
                  = false).
  { apply hasChar_join; [reflexivity|]. apply pairStrings_plain.
    eapply Forall_impl; [|exact Hgood]. intros kv Hkv.
    now destruct (goodPair_string kv Hkv) as (_ & H & _). }
  rewrite parseUrlConfig_fold, updateHash_pairs.
  unfold configUrls, urlParameters. cbn [flat_map].
  change ("#" ++ JsString.join "&" (map pairString (hashPairs c)))%string
    with (String "#" (JsString.join "&" (map pairString (hashPairs c)))).
  rewrite getHashPart_hash, getParameterPart_none by assumption.
  rewrite getParameters_pairs by assumption.
  cbn [getParameters]. rewrite !app_nil_r.
  now apply decode_hashPairs.
Qed.

Lemma config_round_trip_witness :
  let c := mkConfig (Some 1%nat) (Some "M1") (Some ["a"; "b"]) (Some ["x"])
                    (Some final) (Some Production) (Some (Int 2020))
                    (Some "US") in
  parseUrlConfig ("http://host/page.html" ++ updateHash c) [] false
  = set_source c None.
Proof.
  intros c.
  apply (config_round_trip "http://host/page.html" c []);
    vm_compute; reflexivity.
Defined.

(** * Further properties *)

(** ** Widgets: queueing, readiness and change events *)

Section WidgetQueueFacts.

Import Widget.

Lemma run_updates_not_ready (w : t) (configs : list (option Config)) :
  isReady w = false ->
  run w (map Update configs)
  = (mk (self w) false (listeners w)
        (queue w ++ flat_map (accepted w) configs), []).
Proof.
  revert w. induction configs as [|o configs IH]; intros w Hr.
  - simpl. rewrite app_nil_r. destruct w. simpl in Hr. now subst.
  - cbn [map run step]. unfold update.
    destruct o as [c|]; [destruct (fromSelf w c) eqn:Hc|].
    + rewrite (IH w Hr). cbn [flat_map accepted]. now rewrite Hc.
    + rewrite Hr. cbn [negb].
      rewrite IH by reflexivity. cbn [self listeners queue flat_map accepted].
      rewrite Hc, <- app_assoc. reflexivity.
    + rewrite (IH w Hr). reflexivity.
Qed.

Lemma ready_pops (w : t) (q : list Config) (c : Config) :
  queue w = q ++ [c] ->
  ready w = (mk (self w) true (listeners w) q, [c]).
Proof.
  intros Hq. unfold ready. cbn [queue self isReady listeners].
  rewrite Hq, rev_app_distr. cbn [rev app].
  now rewrite removelast_last.
Qed.

Lemma ready_empty (w : t) :
  queue w = [] -> ready w = (mk (self w) true (listeners w) [], []).
Proof. intros Hq. unfold ready. cbn [queue]. now rewrite Hq. Qed.

End WidgetQueueFacts.

(** X1. A configuration that a widget fires is stamped with the widget:
    the widget itself ignores it, and a widget with another identity takes
    it, at once when it is ready and into its queue when it is not. *)
Theorem fired_change_echo (w other : Widget.t) (c : Config) :
  let stamped := fst (Widget.fireChange w c) in
  Widget.update w (Some stamped) = (w, [])
  /\ (Widget.self other <> Widget.self w ->
      Widget.update other (Some stamped)
      = if Widget.isReady other then (other, [stamped])
        else (Widget.mk (Widget.self other) false (Widget.listeners other)
                        (Widget.queue other ++ [stamped]), [])).
Proof.
  intros stamped. split.
  - unfold Widget.update, Widget.fromSelf. cbn. now rewrite Nat.eqb_refl.
  - intros Hne. unfold Widget.update, Widget.fromSelf. cbn.
    apply not_eq_sym in Hne.
    apply Nat.eqb_neq in Hne. rewrite Hne.
    destruct (Widget.isReady other) eqn:Hr; cbn [negb]; [reflexivity|].
    reflexivity.
Qed.

Lemma fired_change_echo_witness :
  let w := Widget.mk 1%nat true [] [] in
  let other := Widget.mk 2%nat true [] [] in
  let stamped := set_source emptyConfig (Some 1%nat) in
  Widget.update other (Some stamped) = (other, [stamped]).
Proof.
  intros w other stamped.
  apply (proj2 (fired_change_echo w other emptyConfig)).
  discriminate.
Defined.

(** X2. Until a widget is ready its handler is not called: every update
    it does not suppress is appended to the queue, in the order of
    arrival, and none is dropped. *)
Theorem updates_before_ready_are_queued (w : Widget.t)
    (configs : list (option Config)) :
  Widget.isReady w = false ->
  let '(w', calls) := Widget.run w (map Widget.Update configs) in
  calls = []
  /\ Widget.isReady w' = false
  /\ Widget.queue w' = Widget.queue w ++ flat_map (accepted w) configs.
Proof.
  intros Hr. rewrite run_updates_not_ready by assumption. now repeat split.
Qed.

Lemma updates_before_ready_are_queued_witness :
  let w := Widget.create 1%nat in
  let c1 := set_year emptyConfig (Some (Int 2019)) in
  let own := set_source emptyConfig (Some 1%nat) in
  Widget.queue (fst (Widget.run w [Widget.Update (Some c1); Widget.Update None;
                                   Widget.Update (Some own)])) = [c1].
Proof.
  intros w c1 own.
  pose proof (updates_before_ready_are_queued w [Some c1; None; Some own]
                                              eq_refl) as H.
  cbn [map] in H.
  destruct (Widget.run w [Widget.Update (Some c1); Widget.Update None;
                          Widget.Update (Some own)]) as [w' calls].
  destruct H as (_ & _ & Hq). exact Hq.
Defined.

(** X3. Each call of [ready] applies one queued update, the newest first:
    [n] calls apply the last [n] entries of the queue in reverse order and
    leave the others queued. *)
Theorem ready_applies_newest_first (w : Widget.t) (n : nat) :
  let '(w', calls) := Widget.run w (repeat Widget.Ready n) in
  calls = firstn n (rev (Widget.queue w))
  /\ Widget.queue w'
     = firstn (List.length (Widget.queue w) - n) (Widget.queue w).
Proof.
  revert w. induction n as [|n IH]; intros w.
  - cbn. rewrite Nat.sub_0_r, firstn_all. now split.
  - cbn [repeat Widget.run Widget.step].
    destruct (rev (Widget.queue w)) as [|c l] eqn:Hrev.
    + assert (Hq : Widget.queue w = []).
      { apply (f_equal (@rev _)) in Hrev. now rewrite rev_involutive in Hrev. }
      rewrite (ready_empty w Hq). specialize (IH (Widget.mk (Widget.self w)
        true (Widget.listeners w) [])).
      destruct (Widget.run _ (repeat Widget.Ready n)) as [w' calls].
      cbn [Widget.queue rev] in IH. destruct IH as [Hc Hw].
      rewrite Hq. cbn. rewrite Hc, Hw. now rewrite !firstn_nil.
    + assert (Hq : Widget.queue w = rev l ++ [c]).
      { apply (f_equal (@rev _)) in Hrev. now rewrite rev_involutive in Hrev. }
      rewrite (ready_pops w (rev l) c Hq).
      specialize (IH (Widget.mk (Widget.self w) true (Widget.listeners w)
                                (rev l))).
      destruct (Widget.run _ (repeat Widget.Ready n)) as [w' calls].
      cbn [Widget.queue] in IH. rewrite rev_involutive in IH.
      destruct IH as [Hc Hw]. split.
      * cbn. now rewrite Hc.
      * rewrite Hw, Hq, length_app, length_rev. cbn [List.length].
        replace (List.length l + 1 - S n)%nat with (List.length l - n)%nat
          by lia.
        rewrite firstn_app, length_rev.
        replace (List.length l - n - List.length l)%nat with 0%nat by lia.
        cbn. now rewrite app_nil_r.
Qed.

(** X4. No sequence of calls of [update] and [ready] changes the identity
    or the listeners of a widget, and none makes a ready widget unready. *)
Theorem run_keeps_identity_and_listeners (w : Widget.t)
    (calls : list Widget.call) :
  let w' := fst (Widget.run w calls) in
  Widget.self w' = Widget.self w
  /\ Widget.listeners w' = Widget.listeners w
  /\ (Widget.isReady w = true -> Widget.isReady w' = true).
Proof.
  revert w. induction calls as [|c calls IH]; intros w; [now repeat split|].
  cbn [Widget.run].
  destruct (Widget.step w c) as [w1 h1] eqn:Hstep.
  specialize (IH w1). destruct (Widget.run w1 calls) as [w2 h2].
  cbn [fst] in *. destruct IH as (Hs & Hl & Hr).
  assert (H1 : Widget.self w1 = Widget.self w
               /\ Widget.listeners w1 = Widget.listeners w
               /\ (Widget.isReady w = true -> Widget.isReady w1 = true)).
  { destruct c as [[cfg|]|]; cbn [Widget.step] in Hstep.
    - unfold Widget.update in Hstep.
      destruct (Widget.fromSelf w cfg), (Widget.isReady w) eqn:E;
        cbn [negb] in Hstep; injection Hstep as <- _; cbn;
        repeat split; congruence.
    - injection Hstep as <- _. now repeat split.
    - unfold Widget.ready in Hstep. cbn in Hstep.
      destruct (rev (Widget.queue w)); injection Hstep as <- _;
        now repeat split. }
  destruct H1 as (Hs1 & Hl1 & Hr1).
  repeat split; [congruence | congruence | auto].
Qed.

Lemma run_keeps_identity_and_listeners_witness :
  let w := Widget.mk 3%nat true [5%nat] [] in
  Widget.isReady
    (fst (Widget.run w [Widget.Update (Some emptyConfig); Widget.Ready]))
  = true.
Proof.
  intros w.
  apply (run_keeps_identity_and_listeners
           w [Widget.Update (Some emptyConfig); Widget.Ready]).
  reflexivity.
Defined.

(** X5. [fireChange] calls the listeners in the order in which [onChanged]
    registered them, after those registered before, each with the same
    configuration stamped with the widget; registering listeners changes
    neither the readiness nor the queue. *)
Theorem listeners_called_in_registration_order (w : Widget.t)
    (fns : list Widget.Listener) (c : Config) :
  let w' := fold_left Widget.onChanged fns w in
  Widget.fireChange w' c
  = (set_source c (Some (Widget.self w)),
     map (fun fn => (fn, set_source c (Some (Widget.self w))))
         (Widget.listeners w ++ fns))
  /\ Widget.isReady w' = Widget.isReady w
  /\ Widget.queue w' = Widget.queue w.
Proof.
  revert w. induction fns as [|fn fns IH]; intros w.
  - cbn. now rewrite app_nil_r.
  - cbn [fold_left]. specialize (IH (Widget.onChanged w fn)).
    cbn in IH. rewrite <- app_assoc in IH. exact IH.
Qed.

(** ** Reading URLs: what the parameters can and cannot set *)

Section UrlReadFacts.

Lemma updateConfigParam_source (c : Config) (param : string * string) :
  source (updateConfigParam c param) = source c.
Proof.
  destruct param as [key val]. unfold updateConfigParam.
  repeat match goal with
         | |- context [if ?b then _ else _] => destruct b
         | |- context [match ?o with Some _ => _ | None => _ end] =>
             destruct o
         end; reflexivity.
Qed.

Lemma updateConfig_source (c : Config) (params : list (string * string)) :
  source (updateConfig c params) = source c.
Proof.
  revert c. induction params as [|p params IH]; intros c; [reflexivity|].
  cbn [updateConfig fold_left].
  fold (updateConfig (updateConfigParam c p) params).
  now rewrite IH, updateConfigParam_source.
Qed.

Lemma parseUrlConfig_source (href : string) (scriptSrcs : list string)
    (withScripts : bool) :
  source (parseUrlConfig href scriptSrcs withScripts) = None.
Proof. rewrite parseUrlConfig_fold. apply updateConfig_source. Qed.

Lemma updateConfigParam_other (c : Config) (key val : string) :
  configKey key = false -> updateConfigParam c (key, val) = c.
Proof.
  unfold configKey. cbn [existsb]. intros H.
  repeat (apply orb_false_elim in H as [?E H]).
  unfold updateConfigParam.
  repeat match goal with
         | E : String.eqb key _ = false |- _ => rewrite E; clear E
         end.
  reflexivity.
Qed.

End UrlReadFacts.

(** X6. No URL sets the sender of a configuration: whatever the page URL
    and the script URLs are, the configuration read from them has no
    [source], so no widget takes it for an echo of its own change and
    suppresses it. *)
Theorem url_configuration_has_no_source (href : string)
    (scriptSrcs : list string) (withScripts : bool) :
  source (parseUrlConfig href scriptSrcs withScripts) = None
  /\ forall w,
       accepted w (Some (parseUrlConfig href scriptSrcs withScripts))
       = [parseUrlConfig href scriptSrcs withScripts].
Proof.
  pose proof (parseUrlConfig_source href scriptSrcs withScripts) as H.
  split; [exact H|]. intros w. unfold accepted, Widget.fromSelf.
  now rewrite H.
Qed.

(** X7. Parameters whose key is none of [model], [sectors], [indicators],
    [type], [analysis], [perspective], [location] and [year] change
    nothing: dropping them from the parameter list gives the same
    configuration. *)
Theorem unknown_parameters_are_ignored (c : Config)
    (params : list (string * string)) :
  updateConfig c (filter (fun p => configKey (fst p)) params)
  = updateConfig c params.
Proof.
  revert c. induction params as [|[key val] params IH]; intros c;
    [reflexivity|].
  cbn [filter fst]. destruct (configKey key) eqn:Hkey.
  - cbn [updateConfig fold_left]. apply IH.
  - cbn [updateConfig fold_left].
    rewrite (updateConfigParam_other c key val Hkey). apply IH.
Qed.

(** ** The parts of a URL *)

Section UrlPartFacts.

Import JsString.

Lemma split_not_nil (sep : ascii) (s : string) : split sep s <> [].
Proof.
  destruct s as [|c s]; cbn [split]; [discriminate|].
  destruct (Ascii.eqb c sep); [discriminate|].
  destruct (split sep s); discriminate.
Qed.

(** Splitting at a separator splits the text before and the text after. *)
Lemma split_app (sep : ascii) (a b : string) :
  split sep (a ++ String sep b) = split sep a ++ split sep b.
Proof.
  induction a as [|c a IH]; cbn [append split].
  - now rewrite Ascii.eqb_refl.
  - rewrite IH. destruct (Ascii.eqb c sep); [reflexivity|].
    pose proof (split_not_nil sep a) as Hne.
    destruct (split sep a); [contradiction | reflexivity].
Qed.

Lemma string_append_assoc (a b c : string) :
  ((a ++ b) ++ c = a ++ (b ++ c))%string.
Proof.
  induction a as [|x a IH]; cbn [append]; [reflexivity | now rewrite IH].
Qed.

Lemma nth_last_app {A : Type} (xs : list A) (x d : A) :
  nth (List.length (xs ++ [x]) - 1) (xs ++ [x]) d = x.
Proof.
  rewrite length_app. cbn [List.length].
  replace (List.length xs + 1 - 1)%nat with (List.length xs) by lia.
  rewrite app_nth2 by lia. now rewrite Nat.sub_diag.
Qed.

Lemma nth_before_last_app {A : Type} (xs : list A) (x y d : A) :
  nth (List.length (xs ++ [x; y]) - 2) (xs ++ [x; y]) d = x.
Proof.
  rewrite length_app. cbn [List.length].
  replace (List.length xs + 2 - 2)%nat with (List.length xs) by lia.
  rewrite app_nth2 by lia. now rewrite Nat.sub_diag.
Qed.

(** The hash part is the text after the last [#]. *)
Lemma getHashPart_last (pre h : string) :
  hasChar "#" h = false -> getHashPart (pre ++ String "#" h) = Some h.
Proof.
  intros Hh. unfold getHashPart.
  rewrite split_app, (split_no_sep _ _ Hh).
  pose proof (split_not_nil "#" pre) as Hne.
  rewrite nth_last_app.
  destruct (pre ++ String "#" h)%string eqn:E;
    [destruct pre; discriminate|].
  rewrite length_app. cbn [List.length].
  destruct (split "#" pre) as [|p ps]; [contradiction|].
  cbn [List.length]. now replace (S (List.length ps) + 1 <? 2)%nat with false
    by (symmetry; apply Nat.ltb_ge; lia).
Qed.

Lemma getHashPart_no_hash (url : string) :
  hasChar "#" url = false -> getHashPart url = None.
Proof.
  intros H. unfold getHashPart. rewrite (split_no_sep _ _ H).
  now destruct url.
Qed.

(** The query of a text without [#]: what follows its first [?], up to
    the next one. *)
Lemma getParameterPart_no_hash (url : string) :
  hasChar "#" url = false ->
  getParameterPart url
  = match split "?" url with
    | _ :: q :: _ => Some q
    | _ => None
    end.
Proof.
  intros H. unfold getParameterPart. rewrite (split_no_sep _ _ H).
  cbn [List.length Nat.ltb Nat.leb].
  destruct url as [|c url]; [reflexivity|].
  destruct (split "?" (String c url)) as [|p [|q ps]]; reflexivity.
Qed.

(** With two [#] or more, the query is read from the text between the
    last two. *)
Lemma getParameterPart_between (pre mid h : string) :
  hasChar "#" mid = false -> hasChar "#" h = false ->
  getParameterPart (pre ++ String "#" (mid ++ String "#" h))
  = getParameterPart mid.
Proof.
  intros Hmid Hh. rewrite (getParameterPart_no_hash mid Hmid).
  unfold getParameterPart.
  rewrite split_app, split_app, (split_no_sep _ _ Hmid), (split_no_sep _ _ Hh).
  cbn [app]. rewrite nth_before_last_app.
  rewrite length_app. cbn [List.length].
  replace (1 <? List.length (split "#" pre) + 2)%nat with true
    by (symmetry; apply Nat.ltb_lt; lia).
  destruct (pre ++ String "#" (mid ++ String "#" h))%string eqn:E;
    [destruct pre; discriminate|].
  destruct (split "?" mid) as [|p [|q ps]]; reflexivity.
Qed.

Lemma getParameterPart_before_hash (mid h : string) :
  hasChar "#" mid = false -> hasChar "#" h = false ->
  getParameterPart (mid ++ String "#" h) = getParameterPart mid.
Proof.
  intros Hmid Hh. rewrite (getParameterPart_no_hash mid Hmid).
  unfold getParameterPart.
  rewrite split_app, (split_no_sep _ _ Hmid), (split_no_sep _ _ Hh).
  cbn [app List.length Nat.ltb Nat.leb Nat.sub nth].
  destruct (mid ++ String "#" h)%string eqn:E;
    [destruct mid; discriminate|].
  destruct (split "?" mid) as [|p [|q ps]]; reflexivity.
Qed.

Lemma getParameterPart_query (base q : string) :
  hasChar "#" base = false -> hasChar "?" base = false ->
  hasChar "#" q = false -> hasChar "?" q = false ->
  getParameterPart (base ++ String "?" q) = Some q.
Proof.
  intros Hb1 Hb2 Hq1 Hq2. rewrite getParameterPart_no_hash.
  - now rewrite split_app, (split_no_sep _ _ Hb2), (split_no_sep _ _ Hq2).
  - rewrite hasChar_append. cbn [hasChar]. now rewrite Hb1, Hq1.
Qed.

Lemma parseUrlConfig_page (href : string) :
  parseUrlConfig href [] false
  = updateConfig (updateConfig emptyConfig (getParameters (getHashPart href)))
                 (getParameters (getParameterPart href)).
Proof. reflexivity. Qed.

End UrlPartFacts.

(** X8. A URL [base?query#hash] (no [#] or [?] inside [base] and [query],
    no [#] inside [hash]) is taken apart as written: its hash part is
    [hash], its query part is [query], and without the [#hash] there is no
    hash part. The configuration of the page applies the parameters of
    the hash first and those of the query second. *)
Theorem url_is_taken_apart (base query hash : string) :
  hasChar "#" base = false -> hasChar "?" base = false ->
  hasChar "#" query = false -> hasChar "?" query = false ->
  hasChar "#" hash = false ->
  let url := (base ++ "?" ++ query ++ "#" ++ hash)%string in
  getHashPart url = Some hash
  /\ getParameterPart url = Some query
  /\ getHashPart (base ++ "?" ++ query) = None
  /\ getParameterPart (base ++ "?" ++ query) = Some query
  /\ parseUrlConfig url [] false
     = updateConfig (updateConfig emptyConfig (getParameters (Some hash)))
                    (getParameters (Some query)).
Proof.
  intros Hb1 Hb2 Hq1 Hq2 Hh url.
  assert (Hurl : url = ((base ++ String "?" query) ++ String "#" hash)%string).
  { unfold url. now rewrite string_append_assoc. }
  assert (Hbq : hasChar "#" (base ++ String "?" query) = false).
  { rewrite hasChar_append. cbn [hasChar]. now rewrite Hb1, Hq1. }
  assert (H1 : getHashPart url = Some hash)
    by (rewrite Hurl; now apply getHashPart_last).
  assert (H2 : getParameterPart url = Some query).
  { rewrite Hurl, getParameterPart_before_hash by assumption.
    now apply getParameterPart_query. }
  repeat split.
  - exact H1.
  - exact H2.
  - now apply getHashPart_no_hash.
  - now apply getParameterPart_query.
  - now rewrite parseUrlConfig_page, H1, H2.
Qed.

Lemma url_is_taken_apart_witness :
  parseUrlConfig "http://host/page.html?year=1995&model=M1#year=2020" []
                 false
  = updateConfig (updateConfig emptyConfig (getParameters (Some "year=2020")))
                 (getParameters (Some "year=1995&model=M1")).
Proof.
  pose proof (url_is_taken_apart
                "http://host/page.html" "year=1995&model=M1" "year=2020"
                eq_refl eq_refl eq_refl eq_refl eq_refl)
    as (_ & _ & _ & _ & H).
  exact H.
Defined.

(** X9. When a URL holds two [#] or more, the hash part is the text after
    the last one and the query is read from the text between the last two:
    whatever stands before the second last [#], the query string of the
    page included, is ignored. *)
Theorem text_before_second_last_hash_is_ignored (pre mid hash : string) :
  hasChar "#" mid = false -> hasChar "#" hash = false ->
  let url := (pre ++ "#" ++ mid ++ "#" ++ hash)%string in
  getHashPart url = Some hash
  /\ getParameterPart url = getParameterPart mid
  /\ parseUrlConfig url [] false
     = parseUrlConfig (mid ++ "#" ++ hash) [] false.
Proof.
  intros Hmid Hh url.
  assert (Hurl : url = (pre ++ String "#" (mid ++ String "#" hash))%string)
    by reflexivity.
  assert (Hagain : url
                   = ((pre ++ String "#" mid) ++ String "#" hash)%string).
  { unfold url. now rewrite string_append_assoc. }
  assert (H1 : getHashPart url = Some hash)
    by (rewrite Hagain; now apply getHashPart_last).
  assert (H2 : getParameterPart url = getParameterPart mid)
    by (rewrite Hurl; now apply getParameterPart_between).
  repeat split; [exact H1 | exact H2 |].
  rewrite !parseUrlConfig_page, H1, H2.
  change (mid ++ "#" ++ hash)%string with (mid ++ String "#" hash)%string.
  now rewrite getHashPart_last, getParameterPart_before_hash.
Qed.

Lemma text_before_second_last_hash_is_ignored_witness :
  parseUrlConfig "http://host/page.html?year=1995#model=M1#year=2020" []
                 false
  = parseUrlConfig "model=M1#year=2020" [] false.
Proof.
  pose proof (text_before_second_last_hash_is_ignored
                "http://host/page.html?year=1995" "model=M1" "year=2020"
                eq_refl eq_refl)
    as (_ & _ & H).
  exact H.
Defined.

(** ** The URL transmitter *)

Section TransmitterFacts.

Import UrlConfigTransmitter.

Lemma overriddenBy_idem {A : Type} (x y : option A) :
  overriddenBy (overriddenBy x y) y = overriddenBy x y.
Proof. now destruct y. Qed.

Lemma spread_idem (a b : Config) : spread (spread a b) b = spread a b.
Proof. unfold spread. cbn. now rewrite !overriddenBy_idem. Qed.

Lemma spread_empty (a : Config) : spread a emptyConfig = a.
Proof. now destruct a. Qed.

Lemma spread_own_fields (c : Config) : spread c (set_source c None) = c.
Proof.
  destruct c as [src m s i p a y l]. unfold spread. cbn.
  now destruct m, s, i, p, a, y, l.
Qed.

Lemma spread_source (a b : Config) :
  source b = None -> source (spread a b) = source a.
Proof. intros H. unfold spread. cbn. now rewrite H. Qed.

(** A second [update] with the same configuration finds the widget with
    the identity and the readiness it had. *)
Lemma update_again (w : Widget.t) (conf : Config) :
  Widget.self (fst (Widget.update w (Some conf))) = Widget.self w
  /\ snd (Widget.update (fst (Widget.update w (Some conf))) (Some conf))
     = snd (Widget.update w (Some conf)).
Proof.
  unfold Widget.update.
  destruct (Widget.fromSelf w conf) eqn:Hc; cbn [fst snd].
  - now rewrite Hc.
  - destruct (Widget.isReady w) eqn:Hr; cbn [negb fst snd].
    + now rewrite Hc, Hr.
    + unfold Widget.fromSelf in *. cbn. now rewrite Hc.
Qed.

(** The calls of [handleUpdate] that [onHashChanged] makes: one for each
    ready widget that is not the sender, in the order of joining. *)
Lemma onHashChanged_calls (tr : t) (href : string) :
  snd (onHashChanged tr href)
  = map (fun w => (Widget.self w, config (fst (onHashChanged tr href))))
        (filter (fun w => Widget.isReady w
                          && negb (Widget.fromSelf
                                     w (config (fst (onHashChanged tr href)))))
                (widgets tr)).
Proof.
  unfold onHashChanged. cbn [fst snd config].
  generalize (spread (config tr) (parseUrlConfig href [] false)) as conf.
  intros conf. induction (widgets tr) as [|w ws IH]; [reflexivity|].
  cbn [flat_map filter]. rewrite IH. unfold Widget.update.
  destruct (Widget.fromSelf w conf), (Widget.isReady w); reflexivity.
Qed.

Lemma parseUrlConfig_no_parameters (base : string) :
  hasChar "#" base = false -> hasChar "?" base = false ->
  parseUrlConfig base [] false = emptyConfig
  /\ parseUrlConfig (base ++ "#") [] false = emptyConfig.
Proof.
  intros Hh Hq.
  assert (Hpart : getParameterPart base = None).
  { rewrite getParameterPart_no_hash by assumption.
    now rewrite (split_no_sep _ _ Hq). }
  split; rewrite parseUrlConfig_page.
  - now rewrite getHashPart_no_hash, Hpart.
  - rewrite getHashPart_last, getParameterPart_before_hash, Hpart
      by (assumption || reflexivity).
    reflexivity.
Qed.

(** Reading the hash that [updateHash] writes for a portable
    configuration gives its fields back. *)
Lemma parse_written_hash (base : string) (c : Config) :
  hasChar "#" base = false -> hasChar "?" base = false ->
  portableConfig c = true ->
  parseUrlConfig (base ++ updateHash c) [] false = set_source c None.
Proof.
  intros Hhash Hquery Hc.
  pose proof (hashPairs_good c Hc) as Hgood.
  assert (Hbody : hasChar "#" (JsString.join "&" (map pairString (hashPairs c)))
                  = false).
  { apply hasChar_join; [reflexivity|]. apply pairStrings_plain.
    eapply Forall_impl; [|exact Hgood]. intros kv Hkv.
    now destruct (goodPair_string kv Hkv) as (_ & H & _). }
  rewrite parseUrlConfig_page, updateHash_pairs.
  change ("#" ++ JsString.join "&" (map pairString (hashPairs c)))%string
    with (String "#" (JsString.join "&" (map pairString (hashPairs c)))).
  rewrite getHashPart_hash, getParameterPart_none by assumption.
  rewrite getParameters_pairs by assumption.
  cbn [getParameters updateConfig fold_left].
  now apply decode_hashPairs.
Qed.

End TransmitterFacts.

(** X10. A second hash-change event for the same URL (the constructor
    registers the handler for [hashchange] and for [popstate]) leaves the
    configuration as the first one made it, and makes the same calls of
    [handleUpdate] again. *)
Theorem repeated_hash_change (tr : UrlConfigTransmitter.t) (href : string) :
  let first := UrlConfigTransmitter.onHashChanged tr href in
  let second := UrlConfigTransmitter.onHashChanged (fst first) href in
  UrlConfigTransmitter.config (fst second)
  = UrlConfigTransmitter.config (fst first)
  /\ snd second = snd first.
Proof.
  unfold UrlConfigTransmitter.onHashChanged.
  cbn [fst snd UrlConfigTransmitter.config UrlConfigTransmitter.widgets
       UrlConfigTransmitter.self].
  rewrite spread_idem. split; [reflexivity|].
  generalize (spread (UrlConfigTransmitter.config tr)
                     (parseUrlConfig href [] false)) as conf.
  intros conf.
  induction (UrlConfigTransmitter.widgets tr) as [|w ws IH]; [reflexivity|].
  cbn [map flat_map]. rewrite IH.
  destruct (update_again w conf) as [Hself Hcalls].
  now rewrite Hself, Hcalls.
Qed.

(** X11. Clearing the hash does not clear the configuration: when the URL
    of the page holds no parameters, with or without the [#] that
    [clearAll] leaves, the hash-change handler keeps every field the
    transmitter holds. *)
Theorem clearing_the_hash_keeps_the_configuration
    (tr : UrlConfigTransmitter.t) (base href : string) :
  hasChar "#" base = false -> hasChar "?" base = false ->
  href = base \/ href = (base ++ "#" ++ UrlConfigTransmitter.clearAll)%string ->
  UrlConfigTransmitter.get (fst (UrlConfigTransmitter.onHashChanged tr href))
  = UrlConfigTransmitter.get tr.
Proof.
  intros Hh Hq Href.
  destruct (parseUrlConfig_no_parameters base Hh Hq) as [H1 H2].
  unfold UrlConfigTransmitter.onHashChanged, UrlConfigTransmitter.get.
  cbn [fst UrlConfigTransmitter.config].
  destruct Href as [-> | ->].
  - rewrite H1. apply spread_empty.
  - change (base ++ "#" ++ UrlConfigTransmitter.clearAll)%string
      with (base ++ "#")%string.
    rewrite H2. apply spread_empty.
Qed.

Lemma clearing_the_hash_keeps_the_configuration_witness :
  let tr := UrlConfigTransmitter.create
              1%nat "http://host/page.html#sectors=a,b&year=2020" [] in
  UrlConfigTransmitter.get
    (fst (UrlConfigTransmitter.onHashChanged tr "http://host/page.html#"))
  = UrlConfigTransmitter.get tr.
Proof.
  intros tr.
  apply (clearing_the_hash_keeps_the_configuration
           tr "http://host/page.html" "http://host/page.html#");
    [reflexivity | reflexivity | right; reflexivity].
Defined.

(** X12. After a widget has announced a change, the transmitter keeps
    that widget as the source of its configuration through every later
    hash change, whatever the URLs are: no later hash change reaches the
    handler of that widget. *)
Theorem sender_is_skipped_by_hash_changes (tr : UrlConfigTransmitter.t)
    (widget : Identity) (c : Config) (hrefs : list string) :
  let tr1 := fst (UrlConfigTransmitter.changed tr widget c) in
  source (UrlConfigTransmitter.config (fst (hashChanges tr1 hrefs)))
  = Some widget
  /\ forall call, In call (snd (hashChanges tr1 hrefs)) -> fst call <> widget.
Proof.
  intros tr1.
  assert (Hsrc : source (UrlConfigTransmitter.config tr1) = Some widget)
    by reflexivity.
  clearbody tr1. revert tr1 Hsrc.
  induction hrefs as [|href hrefs IH]; intros tr1 Hsrc.
  - split; [exact Hsrc | intros call []].
  - cbn [hashChanges].
    pose proof (onHashChanged_calls tr1 href) as Hcalls.
    destruct (UrlConfigTransmitter.onHashChanged tr1 href) as [tr2 calls2]
      eqn:Hstep.
    assert (Hsrc2 : source (UrlConfigTransmitter.config tr2) = Some widget).
    { apply (f_equal fst) in Hstep. cbn [fst] in Hstep. rewrite <- Hstep.
      unfold UrlConfigTransmitter.onHashChanged.
      cbn [fst UrlConfigTransmitter.config].
      rewrite spread_source; [exact Hsrc | apply parseUrlConfig_source]. }
    specialize (IH tr2 Hsrc2).
    destruct (hashChanges tr2 hrefs) as [tr3 calls3].
    cbn [fst snd] in *. destruct IH as [IH1 IH2].
    split; [exact IH1|]. intros call Hin.
    apply in_app_or in Hin as [Hin | Hin]; [|now apply IH2].
    rewrite Hcalls in Hin. apply in_map_iff in Hin as (w & <- & Hw).
    apply filter_In in Hw as [_ Hw]. apply andb_prop in Hw as [_ Hw].
    apply negb_true_iff in Hw. unfold Widget.fromSelf in Hw.
    rewrite Hsrc2 in Hw. cbn [fst]. intros Heq.
    rewrite Heq, Nat.eqb_refl in Hw. discriminate.
Qed.

(** X13. A change that a widget announces is handed on by the hash: when
    the configuration the transmitter then holds is portable, the
    hash-change event for the hash it wrote leaves that configuration as
    it is and calls the handler of every ready widget other than the
    sender, once each, in the order of joining. *)
Theorem change_reaches_the_other_widgets (tr : UrlConfigTransmitter.t)
    (widget : Identity) (c : Config) (base : string) :
  hasChar "#" base = false -> hasChar "?" base = false ->
  portableConfig (spread (UrlConfigTransmitter.config tr) c) = true ->
  let '(tr1, hash) := UrlConfigTransmitter.changed tr widget c in
  let '(tr2, calls) :=
    UrlConfigTransmitter.onHashChanged tr1 (base ++ hash) in
  UrlConfigTransmitter.config tr2 = UrlConfigTransmitter.config tr1
  /\ source (UrlConfigTransmitter.config tr1) = Some widget
  /\ calls
     = map (fun w => (Widget.self w, UrlConfigTransmitter.config tr1))
           (filter (fun w => Widget.isReady w
                             && negb (Nat.eqb widget (Widget.self w)))
                   (UrlConfigTransmitter.widgets tr)).
Proof.
  intros Hh Hq Hc. unfold UrlConfigTransmitter.changed.
  set (conf := set_source (spread (UrlConfigTransmitter.config tr) c)
                          (Some widget)).
  set (tr1 := UrlConfigTransmitter.mk (UrlConfigTransmitter.self tr)
                                      (UrlConfigTransmitter.widgets tr) conf).
  pose proof (onHashChanged_calls tr1 (base ++ updateHash conf)) as Hcalls.
  assert (Hconf : UrlConfigTransmitter.config
                    (fst (UrlConfigTransmitter.onHashChanged
                            tr1 (base ++ updateHash conf))) = conf).
  { unfold UrlConfigTransmitter.onHashChanged.
    cbn [fst UrlConfigTransmitter.config tr1].
    rewrite parse_written_hash by assumption. apply spread_own_fields. }
  destruct (UrlConfigTransmitter.onHashChanged tr1 (base ++ updateHash conf))
    as [tr2 calls].
  cbn [fst snd] in *. repeat split; [exact Hconf|].
  rewrite Hcalls, Hconf. reflexivity.
Qed.

Lemma change_reaches_the_other_widgets_witness :
  let w1 := Widget.mk 1%nat true [9%nat] [] in
  let w2 := Widget.mk 2%nat true [9%nat] [] in
  let tr := UrlConfigTransmitter.mk 9%nat [w1; w2] emptyConfig in
  let c := set_year emptyConfig (Some (Int 2020)) in
  snd (UrlConfigTransmitter.onHashChanged
         (fst (UrlConfigTransmitter.changed tr 1%nat c))
         "http://host/page.html#year=2020")
  = [(2%nat, set_source c (Some 1%nat))].
Proof.
  intros w1 w2 tr c.
  pose proof (change_reaches_the_other_widgets
                tr 1%nat c "http://host/page.html" eq_refl eq_refl eq_refl)
    as H.
  vm_compute in H. destruct H as (_ & _ & H).
  vm_compute. exact H.
Defined.

Section FillFacts.

Import UrlConfigTransmitter.





End FillFacts.


(** X15. A widget that joins is handed the configuration the transmitter
    holds: its handler is called at once when it is ready; when it is not,
    the configuration is queued last, so that its call of [ready] applies
    it. Joining appends the widget to the widgets of the transmitter, adds
    one listener to it, and leaves the configuration as it is. *)
Theorem joined_widget_gets_configuration (tr : UrlConfigTransmitter.t)
    (w : Widget.t) :
  Widget.fromSelf w (UrlConfigTransmitter.config tr) = false ->
  let '(tr', calls) := UrlConfigTransmitter.join tr w in
  UrlConfigTransmitter.get tr' = UrlConfigTransmitter.get tr
  /\ calls = (if Widget.isReady w then [UrlConfigTransmitter.config tr]
              else [])
  /\ exists w',
       UrlConfigTransmitter.widgets tr'
       = UrlConfigTransmitter.widgets tr ++ [w']
       /\ Widget.self w' = Widget.self w
       /\ Widget.listeners w'
          = Widget.listeners w ++ [UrlConfigTransmitter.self tr]
       /\ (Widget.isReady w = false ->
           snd (Widget.ready w') = [UrlConfigTransmitter.config tr]).
Proof.
  intros Hsrc. unfold UrlConfigTransmitter.join, Widget.update.
  rewrite Hsrc. destruct (Widget.isReady w) eqn:Hr; cbn [negb].
  - split; [reflexivity|]. split; [reflexivity|].
    eexists. split; [reflexivity|]. cbn. repeat split. discriminate.
  - split; [reflexivity|]. split; [reflexivity|].
    eexists. split; [reflexivity|]. cbn [Widget.onChanged Widget.self
      Widget.listeners Widget.isReady Widget.queue].
    repeat split. intros _.
    erewrite ready_pops; [reflexivity | reflexivity].
Qed.

Lemma joined_widget_gets_configuration_witness :
  let tr := UrlConfigTransmitter.create
              9%nat "http://host/page.html#year=2020" [] in
  let w := Widget.create 1%nat in
  snd (UrlConfigTransmitter.join tr w) = []
  /\ exists w',
       UrlConfigTransmitter.widgets (fst (UrlConfigTransmitter.join tr w))
       = [w']
       /\ snd (Widget.ready w') = [set_year emptyConfig (Some (Int 2020))].
Proof.
  intros tr w.
  pose proof (joined_widget_gets_configuration tr w eq_refl) as H.
  destruct (UrlConfigTransmitter.join tr w) as [tr' calls].
  destruct H as (_ & Hcalls & w' & Hw & _ & _ & Hready).
  split; [exact Hcalls|]. exists w'. split; [exact Hw|].
  exact (Hready eq_refl).
Defined.

(** ** Trimming, lower case and the parts of a split *)

Section TrimFacts.

Import JsString.

Lemma trimStart_sub (c : ascii) (s : string) :
  hasChar c s = false -> hasChar c (trimStart s) = false.
Proof.
  induction s as [|x s IH]; [reflexivity|]. intros H.
  cbn [trimStart]. destruct (isWhiteSpace x); [|exact H].
  cbn [hasChar] in H. apply orb_false_elim in H as [_ H]. now apply IH.
Qed.

Lemma trimEnd_sub (c : ascii) (s : string) :
  hasChar c s = false -> hasChar c (trimEnd s) = false.
Proof.
  induction s as [|x s IH]; [reflexivity|]. intros H.
  cbn [hasChar] in H. apply orb_false_elim in H as [Hx Hs].
  specialize (IH Hs). cbn [trimEnd].
  destruct (trimEnd s) as [|y r].
  - destruct (isWhiteSpace x); [reflexivity|]. cbn [hasChar].
    now rewrite Hx.
  - cbn [hasChar] in *. now rewrite Hx, IH.
Qed.

Lemma trim_sub (c : ascii) (s : string) :
  hasChar c s = false -> hasChar c (trim s) = false.
Proof. intros H. now apply trimEnd_sub, trimStart_sub. Qed.

Lemma trimStart_length (s : string) :
  (String.length (trimStart s) <= String.length s)%nat.
Proof.
  induction s as [|x s IH]; [apply Nat.le_refl|].
  cbn [trimStart]. destruct (isWhiteSpace x); cbn [String.length]; lia.
Qed.

Lemma trimStart_idem (s : string) : trimStart (trimStart s) = trimStart s.
Proof.
  induction s as [|x s IH]; [reflexivity|].
  cbn [trimStart]. destruct (isWhiteSpace x) eqn:E; [exact IH|].
  cbn [trimStart]. now rewrite E.
Qed.

Lemma trimEnd_idem (s : string) : trimEnd (trimEnd s) = trimEnd s.
Proof.
  induction s as [|x s IH]; [reflexivity|].
  cbn [trimEnd]. destruct (trimEnd s) as [|y r] eqn:E.
  - destruct (isWhiteSpace x) eqn:Ex; [reflexivity|].
    cbn [trimEnd]. now rewrite Ex.
  - change (trimEnd (String x (String y r)))
      with (match trimEnd (String y r) with
            | EmptyString => if isWhiteSpace x then EmptyString
                             else String x EmptyString
            | r' => String x r'
            end).
    now rewrite IH.
Qed.

(** Trimming the end leaves a clean start clean. *)
Lemma trimStart_trimEnd (s : string) :
  trimStart s = s -> trimStart (trimEnd s) = trimEnd s.
Proof.
  destruct s as [|x s]; [reflexivity|]. cbn [trimStart].
  destruct (isWhiteSpace x) eqn:Ex.
  - intros H. pose proof (trimStart_length s) as Hlen.
    rewrite H in Hlen. cbn [String.length] in Hlen. lia.
  - intros _. cbn [trimEnd].
    destruct (trimEnd s); rewrite ?Ex; cbn [trimStart]; now rewrite Ex.
Qed.

Lemma trim_idem (s : string) : trim (trim s) = trim s.
Proof.
  unfold trim.
  rewrite (trimStart_trimEnd (trimStart s) (trimStart_idem s)).
  apply trimEnd_idem.
Qed.

Lemma trimmed_trim (s : string) : trimmed (trim s) = true.
Proof. unfold trimmed. rewrite trim_idem. apply String.eqb_refl. Qed.

(** No part of a split holds the separator, and a character that the
    text does not hold is in none of its parts. *)
Lemma split_parts_no_sep (sep : ascii) (s : string) :
  Forall (fun x => hasChar sep x = false) (split sep s).
Proof.
  induction s as [|c s IH]; cbn [split]; [now repeat constructor|].
  destruct (Ascii.eqb c sep) eqn:E; [now constructor|].
  destruct (split sep s) as [|h t]; [now repeat constructor; cbn; rewrite E|].
  inversion IH as [|? ? Hh Ht]; subst. constructor; [|exact Ht].
  cbn [hasChar]. now rewrite E, Hh.
Qed.

Lemma split_parts_keep (c sep : ascii) (s : string) :
  hasChar c s = false -> Forall (fun x => hasChar c x = false) (split sep s).
Proof.
  induction s as [|x s IH]; cbn [split]; [now repeat constructor|].
  intros H. cbn [hasChar] in H. apply orb_false_elim in H as [Hx Hs].
  specialize (IH Hs).
  destruct (Ascii.eqb x sep); [now constructor|].
  destruct (split sep s) as [|h t];
    [repeat constructor; cbn [hasChar]; now rewrite Hx|].
  inversion IH as [|? ? Hh Ht]; subst. constructor; [|exact Ht].
  cbn [hasChar]. now rewrite Hx, Hh.
Qed.

(** Joining the parts of a split with the separator gives the text. *)
Lemma join_split (sep : ascii) (s : string) :
  join (String sep EmptyString) (split sep s) = s.
Proof.
  induction s as [|c s IH]; [reflexivity|]. cbn [split].
  pose proof (split_not_nil sep s) as Hne.
  destruct (split sep s) as [|h t]; [contradiction|].
  destruct (Ascii.eqb c sep) eqn:E.
  - apply Ascii.eqb_eq in E. subst c.
    change (join (String sep EmptyString) (EmptyString :: h :: t))
      with (String sep (join (String sep EmptyString) (h :: t))).
    now rewrite IH.
  - destruct t as [|y t].
    + cbn [join] in *. now rewrite IH.
    + change (join (String sep EmptyString) (String c h :: y :: t))
        with (String c (join (String sep EmptyString) (h :: y :: t))).
      now rewrite IH.
Qed.

(** A text that holds the separator splits into two parts or more. *)
Lemma split_two (sep : ascii) (s : string) :
  hasChar sep s = true -> (2 <= List.length (split sep s))%nat.
Proof.
  induction s as [|c s IH]; [discriminate|]. cbn [hasChar split].
  pose proof (split_not_nil sep s) as Hne.
  destruct (Ascii.eqb c sep); cbn [orb].
  - intros _. destruct (split sep s); [contradiction|]. cbn [List.length]. lia.
  - intros H. specialize (IH H). destruct (split sep s); [contradiction|].
    exact IH.
Qed.

Lemma lowerChar_facts (c : ascii) :
  lowerChar (lowerChar c) = lowerChar c
  /\ isWhiteSpace (lowerChar c) = isWhiteSpace c
  /\ Ascii.eqb (lowerChar c) "&" = Ascii.eqb c "&"
  /\ Ascii.eqb (lowerChar c) "=" = Ascii.eqb c "=".
Proof.
  destruct c as [[] [] [] [] [] [] [] []]; vm_compute; repeat split.
Qed.

Lemma toLowerCase_idem (s : string) :
  toLowerCase (toLowerCase s) = toLowerCase s.
Proof.
  induction s as [|c s IH]; [reflexivity|]. cbn [toLowerCase].
  rewrite IH. now destruct (lowerChar_facts c) as [-> _].
Qed.

Lemma trimStart_lower (s : string) :
  trimStart (toLowerCase s) = toLowerCase (trimStart s).
Proof.
  induction s as [|c s IH]; [reflexivity|]. cbn [toLowerCase trimStart].
  destruct (lowerChar_facts c) as (_ & -> & _).
  now destruct (isWhiteSpace c).
Qed.

Lemma trimEnd_lower (s : string) :
  trimEnd (toLowerCase s) = toLowerCase (trimEnd s).
Proof.
  induction s as [|c s IH]; [reflexivity|]. cbn [toLowerCase trimEnd].
  rewrite IH. destruct (lowerChar_facts c) as (_ & -> & _).
  destruct (trimEnd s); cbn [toLowerCase]; [|reflexivity].
  now destruct (isWhiteSpace c).
Qed.

Lemma trim_lower (s : string) : trim (toLowerCase s) = toLowerCase (trim s).
Proof. unfold trim. now rewrite trimStart_lower, trimEnd_lower. Qed.


End TrimFacts.

(** ** The parameters of a URL part *)

Section ParameterFacts.

Import JsString.

(** Where a parameter comes from: a part of the text between two [&],
    its text before the first [=] and its text between the first [=] and
    the second. *)
Lemma getParameters_origin (part k v : string) :
  In (k, v) (getParameters (Some part)) ->
  exists pair k0 v0 rest,
    In pair (split "&" part)
    /\ split "=" pair = k0 :: v0 :: rest
    /\ k = toLowerCase (trim k0)
    /\ v = trim v0.
Proof.
  unfold getParameters. destruct part as [|c part]; [intros []|].
  generalize (split "&" (String c part)) as pairs. intros pairs Hin.
  apply in_flat_map in Hin as (pair & Hpair & Hin).
  destruct (split "=" pair) as [|k0 [|v0 rest]] eqn:E; try now destruct Hin.
  destruct Hin as [Hin | []]. injection Hin as <- <-.
  now exists pair, k0, v0, rest.
Qed.

(** A character that the text does not hold is in no value. *)
Lemma getParameters_keep (c : ascii) (part k v : string) :
  hasChar c part = false ->
  In (k, v) (getParameters (Some part)) ->
  hasChar c v = false.
Proof.
  intros Hc Hin.
  apply getParameters_origin in Hin
    as (pair & k0 & v0 & rest & Hp & E & -> & ->).
  pose proof (split_parts_keep c "&" part Hc) as Hall.
  rewrite Forall_forall in Hall. specialize (Hall pair Hp).
  pose proof (split_parts_keep c "=" pair Hall) as Hkv.
  rewrite E in Hkv. inversion Hkv as [|? ? Hk Hrest]; subst.
  inversion Hrest as [|? ? Hv _]; subst.
  now apply trim_sub.
Qed.

(** A value is trimmed and holds neither [&] nor [=]. *)
Lemma getParameters_value (part k v : string) :
  In (k, v) (getParameters (Some part)) ->
  trim v = v /\ hasChar "&" v = false /\ hasChar "=" v = false.
Proof.
  intros Hin.
  apply getParameters_origin in Hin
    as (pair & k0 & v0 & rest & Hp & E & -> & ->).
  pose proof (split_parts_no_sep "&" part) as Hamp.
  rewrite Forall_forall in Hamp. specialize (Hamp pair Hp).
  pose proof (split_parts_keep "&" "=" pair Hamp) as Hkv.
  pose proof (split_parts_no_sep "=" pair) as Heq.
  rewrite E in Hkv, Heq.
  inversion Hkv as [|? ? _ Hrest]; subst.
  inversion Hrest as [|? ? Hv _]; subst.
  inversion Heq as [|? ? _ Hrest']; subst.
  inversion Hrest' as [|? ? Hv' _]; subst.
  split; [apply trim_idem|]. split; now apply trim_sub.
Qed.


End ParameterFacts.



(** ** Writing back a configuration that was read *)

Section ReloadFacts.

Import JsString.

(** What every configuration read from URLs satisfies: the code lists
    and the texts it holds can be written to the hash and read back. *)
Let cleanConfig (c : Config) : Prop :=
  optionAll portableCodes (sectors c) = true
  /\ optionAll portableCodes (indicators c) = true
  /\ optionAll plainText (location c) = true
  /\ optionAll plainText (model c) = true.

Lemma plainText_parts (v : string) :
  plainText v = true ->
  trimmed v = true /\ hasChar "&" v = false /\ hasChar "#" v = false
  /\ hasChar "=" v = false.
Proof.
  unfold plainText. intros H.
  apply andb_prop in H as [H Ht]. apply andb_prop in H as [H He].
  apply andb_prop in H as [Ha Hh].
  apply negb_true_iff in Ha, Hh, He. now repeat split.
Qed.

Lemma codes_of_value (v : string) :
  plainText v = true -> portableCodes (split "," v) = true.
Proof.
  intros H. apply plainText_parts in H as (Ht & Ha & Hh & He).
  unfold portableCodes.
  change (JsString.join "," (split "," v))
    with (join (String "," EmptyString) (split "," v)).
  rewrite join_split, Ht, andb_true_r.
  pose proof (split_not_nil "," v) as Hne.
  apply andb_true_intro. split; [now destruct (split "," v)|].
  apply forallb_forall. intros x Hx.
  pose proof (split_parts_no_sep "," v) as H0.
  pose proof (split_parts_keep "&" "," v Ha) as H1.
  pose proof (split_parts_keep "#" "," v Hh) as H2.
  pose proof (split_parts_keep "=" "," v He) as H3.
  rewrite Forall_forall in H0, H1, H2, H3.
  unfold plainCode. now rewrite (H0 x Hx), (H1 x Hx), (H2 x Hx), (H3 x Hx).
Qed.

Lemma updateConfigParam_clean (c : Config) (k v : string) :
  plainText v = true -> cleanConfig c ->
  cleanConfig (updateConfigParam c (k, v)).
Proof.
  intros Hv (Hs & Hi & Hl & Hm). pose proof (codes_of_value v Hv) as Hcodes.
  destruct c as [src m s i p a y l].
  cbn [sectors indicators location model] in Hs, Hi, Hl, Hm.
  unfold updateConfigParam.
  cbn [sectors indicators location model perspective analysis year].
  repeat match goal with
         | |- context [if ?b then _ else _] => destruct b
         | |- context [match ?o with Some _ => _ | None => _ end] =>
             destruct o
         end;
    unfold cleanConfig; cbn; repeat split; assumption.
Qed.

Lemma updateConfig_clean (c : Config) (params : list (string * string)) :
  Forall (fun p => plainText (snd p) = true) params ->
  cleanConfig c -> cleanConfig (updateConfig c params).
Proof.
  intros Hall. revert c.
  induction Hall as [|[k v] params Hv _ IH]; intros c Hc; [exact Hc|].
  cbn [updateConfig fold_left]. apply IH.
  now apply updateConfigParam_clean.
Qed.

Lemma getHashPart_clean (url h : string) :
  getHashPart url = Some h -> hasChar "#" h = false.
Proof.
  unfold getHashPart.
  pose proof (split_parts_no_sep "#" url) as Hall. revert Hall.
  generalize (split "#" url) as parts. intros parts Hall.
  destruct url as [|c url]; [discriminate|]. cbv zeta.
  destruct (List.length parts <? 2)%nat eqn:E; [discriminate|].
  apply Nat.ltb_ge in E. intros H. injection H as <-.
  rewrite Forall_forall in Hall. apply Hall, nth_In. lia.
Qed.

Lemma getParameterPart_clean (url q : string) :
  getParameterPart url = Some q -> hasChar "#" q = false.
Proof.
  unfold getParameterPart.
  assert (Hpart : hasChar "#"
                    (if (1 <? List.length (split "#" url))%nat
                     then nth (List.length (split "#" url) - 2)
                              (split "#" url) EmptyString
                     else url) = false).
  { pose proof (split_parts_no_sep "#" url) as Hall.
    destruct (1 <? List.length (split "#" url))%nat eqn:E.
    - apply Nat.ltb_lt in E. rewrite Forall_forall in Hall.
      apply Hall, nth_In. lia.
    - apply Nat.ltb_ge in E. destruct (hasChar "#" url) eqn:Hu; [|reflexivity].
      pose proof (split_two "#" url Hu). lia. }
  revert Hpart. cbv zeta.
  generalize (if (1 <? List.length (split "#" url))%nat
              then nth (List.length (split "#" url) - 2) (split "#" url)
                       EmptyString
              else url) as part.
  intros part Hpart.
  pose proof (split_parts_keep "#" "?" part Hpart) as Hall.
  destruct url as [|c url]; [discriminate|].
  destruct (List.length (split "?" part) <? 2)%nat eqn:E; [discriminate|].
  apply Nat.ltb_ge in E. intros H. injection H as <-.
  rewrite Forall_forall in Hall. apply Hall, nth_In. lia.
Qed.

Lemma getParameters_plain (part : option string) :
  (forall t, part = Some t -> hasChar "#" t = false) ->
  Forall (fun p => plainText (snd p) = true) (getParameters part).
Proof.
  intros Hpart. destruct part as [t|]; [|constructor].
  specialize (Hpart t eq_refl). apply Forall_forall. intros [k v] Hin.
  destruct (getParameters_value t k v Hin) as (Ht & Ha & He).
  pose proof (getParameters_keep "#" t k v Hpart Hin) as Hh.
  cbn [snd]. unfold plainText, trimmed.
  now rewrite Ha, Hh, He, Ht, String.eqb_refl.
Qed.

Lemma urlParameters_plain (urls : list string) :
  Forall (fun p => plainText (snd p) = true) (urlParameters urls).
Proof.
  unfold urlParameters. induction urls as [|url urls IH]; [constructor|].
  cbn [flat_map]. repeat (apply (proj2 (Forall_app _ _ _)); split).
  - apply getParameters_plain. intros t. apply getHashPart_clean.
  - apply getParameters_plain. intros t. apply getParameterPart_clean.
  - exact IH.
Qed.

(** A configuration read from URLs is portable when its year is absent or
    a safe nonzero integer and its location and model are absent or not
    empty. *)
Lemma parsed_portable (href : string) (scriptSrcs : list string)
    (withScripts : bool) :
  let c := parseUrlConfig href scriptSrcs withScripts in
  optionAll safeYear (year c) = true ->
  optionAll nonEmpty (location c) = true ->
  optionAll nonEmpty (model c) = true ->
  portableConfig c = true.
Proof.
  intros c Hy Hl Hm.
  assert (Hclean : cleanConfig c).
  { unfold c. rewrite parseUrlConfig_fold. apply updateConfig_clean.
    - apply urlParameters_plain.
    - now repeat split. }
  destruct Hclean as (Cs & Ci & Cl & Cm).
  unfold portableConfig. rewrite Cs, Ci, Hy. cbn [andb].
  apply andb_true_intro. split.
  - destruct (location c); [|reflexivity]. cbn in *. now rewrite Hl, Cl.
  - destruct (model c); [|reflexivity]. cbn in *. now rewrite Hm, Cm.
Qed.

End ReloadFacts.

(** X17. What was read from URLs can be written and read again: when the
    configuration read from a page and its scripts is written to the hash
    of a page without a query, reading that page gives the same
    configuration, provided the year read is absent or a nonzero safe
    integer and the location and the model read are absent or not
    empty. *)
Theorem written_hash_reloads_configuration (href : string)
    (scriptSrcs : list string) (withScripts : bool) (base : string) :
  let c := parseUrlConfig href scriptSrcs withScripts in
  hasChar "#" base = false -> hasChar "?" base = false ->
  optionAll safeYear (year c) = true ->
  optionAll nonEmpty (location c) = true ->
  optionAll nonEmpty (model c) = true ->
  parseUrlConfig (base ++ updateHash c) [] false = c.
Proof.
  intros c Hh Hq Hy Hl Hm.
  rewrite parse_written_hash by
    (assumption || now apply parsed_portable).
  pose proof (parseUrlConfig_source href scriptSrcs withScripts) as Hsrc.
  fold c in Hsrc. destruct c. cbn in *. now subst.
Qed.

Lemma written_hash_reloads_configuration_witness :
  let href := "http://host/page.html?Year=1995&model= M1 #sectors=a, b,c" in
  let script := "http://host/widgets.js?type=consumption#perspective=Supply" in
  parseUrlConfig
    ("http://other/app.html" ++ updateHash (parseUrlConfig href [script] true))
    [] false
  = parseUrlConfig href [script] true.
Proof.
  intros href script.
  apply (written_hash_reloads_configuration
           href [script] true "http://other/app.html");
    vm_compute; reflexivity.
Defined.

(** ** Rankings: the count, the filter and an empty indicator list *)

Section RankingMoreFacts.

Lemma slice0_nonneg {A : Type} (count : Z) (xs : list A) :
  (0 <= count)%Z -> slice0 count xs = firstn (Z.to_nat count) xs.
Proof.
  intros H. unfold slice0.
  destruct (count <? 0)%Z eqn:E; [apply Z.ltb_lt in E; lia|].
  destruct (Z.le_ge_cases count (Z.of_nat (List.length xs))) as [Hle | Hge].
  - now rewrite Z.min_l.
  - rewrite Z.min_r, Nat2Z.id, firstn_all by assumption.
    symmetry. apply firstn_all2. lia.
Qed.

(** A comparator that never asks for an exchange leaves the order. *)
Lemma sort_unordered {A num : Type} (N : Arith.t num) (cmp : A -> A -> num)
    (xs : list A) :
  (forall a b, Arith.positive N (cmp a b) = false) -> sort N cmp xs = xs.
Proof.
  intros Hcmp. induction xs as [|x xs IH]; [reflexivity|].
  cbn [sort fold_right]. fold (sort N cmp xs). rewrite IH.
  destruct xs as [|y xs]; [reflexivity|]. cbn [insert]. now rewrite Hcmp.
Qed.

Lemma prefix_spec (needle hay : string) :
  prefix needle hay = true <-> exists rest, hay = (needle ++ rest)%string.
Proof.
  revert hay. induction needle as [|c needle IH]; intros hay.
  - split; [intros _; now exists hay | intros _; now destruct hay].
  - destruct hay as [|d hay]; cbn [prefix append].
    + split; [discriminate | intros [rest H]; discriminate].
    + destruct (ascii_dec c d) as [<- | Hne].
      * rewrite IH. split; intros [rest H]; exists rest; congruence.
      * split; [discriminate | intros [rest H]; congruence].
Qed.

(** [includes] finds the texts that occur inside another. *)
Lemma includes_spec (needle hay : string) :
  JsString.includes needle hay = true
  <-> exists before rest, hay = (before ++ needle ++ rest)%string.
Proof.
  induction hay as [|d hay IH]; cbn [JsString.includes].
  - rewrite orb_false_r, prefix_spec. split.
    + intros [rest H]. now exists EmptyString, rest.
    + intros (before & rest & H). destruct before; [now exists rest|].
      discriminate.
  - rewrite orb_true_iff, prefix_spec, IH. split.
    + intros [[rest H] | (before & rest & H)].
      * now exists EmptyString, rest.
      * exists (String d before), rest. cbn [append]. now rewrite H.
    + intros (before & rest & H). destruct before as [|b before].
      * left. now exists rest.
      * right. exists before, rest. cbn [append] in H. congruence.
Qed.

Lemma rankingFilter_cases (f : string) :
  HeatmapResult.rankingFilter (Some f)
  = match JsString.trim f with
    | EmptyString => None
    | t => Some (JsString.toLowerCase t)
    end.
Proof. now destruct f. Qed.

End RankingMoreFacts.

(** X18. The ranking for a count is the start of the ranking for any
    larger count: for [0 <= count <= count'] the first is the first
    [count] sectors of the second. It holds [count] sectors, or all that
    pass the filter when these are fewer, and only sectors that pass. *)
Theorem ranking_top_is_prefix {num : Type} (N : Arith.t num)
    (h : HeatmapResult.t num) (indicators : list Indicator.t)
    (count count' : Z) (nameFilter : option string) :
  (0 <= count <= count')%Z ->
  exists top more,
    HeatmapResult.getRanking N h indicators count nameFilter = Ok top
    /\ HeatmapResult.getRanking N h indicators count' nameFilter = Ok more
    /\ top = firstn (Z.to_nat count) more
    /\ List.length top
       = Nat.min (Z.to_nat count) (List.length (passing h nameFilter))
    /\ forall s, In s top -> In s (passing h nameFilter).
Proof.
  intros [H0 Hle]. rewrite !getRanking_spec.
  set (ranked := sort N _ (passing h nameFilter)).
  rewrite !slice0_nonneg by lia.
  exists (firstn (Z.to_nat count) ranked), (firstn (Z.to_nat count') ranked).
  repeat split.
  - rewrite firstn_firstn. f_equal. lia.
  - rewrite length_firstn. unfold ranked. now rewrite sort_length.
  - intros s Hs. apply in_firstn in Hs. unfold ranked in Hs.
    exact (Permutation_in s (sort_perm N _ (passing h nameFilter)) Hs).
Qed.

Lemma ranking_top_is_prefix_witness :
  let sector c i := Sector.mk c c i c "" None in
  let h := HeatmapResult.make binary64
             [sector "A" 0%Z; sector "B" 1%Z; sector "C" 2%Z]
             (Result.mk [[1; 1; 2]]%float [4]%float ["A"; "B"; "C"] ["I"]) in
  exists top more,
    HeatmapResult.getRanking binary64 h [Indicator.mk "I" 0 "I"] 1 None
    = Ok top
    /\ HeatmapResult.getRanking binary64 h [Indicator.mk "I" 0 "I"] 2 None
       = Ok more
    /\ top = firstn 1 more.
Proof.
  intros sector h.
  destruct (ranking_top_is_prefix binary64 h [Indicator.mk "I" 0 "I"]
                                  1 2 None)
    as (top & more & H1 & H2 & H3 & _); [lia|].
  exists top, more. now repeat split.
Defined.

(** X19. The name filter selects by substring, without regard to case
    and to white space around the filter: a blank filter selects every
    sector, and any other filter selects the sectors whose name in lower
    case holds the trimmed filter in lower case. *)
Theorem filter_selects_by_substring {num : Type} (h : HeatmapResult.t num)
    (nameFilter : string) :
  passing h None = HeatmapResult.sectors h
  /\ (JsString.trim nameFilter = EmptyString ->
      passing h (Some nameFilter) = HeatmapResult.sectors h)
  /\ (JsString.trim nameFilter <> EmptyString ->
      forall s,
        In s (passing h (Some nameFilter))
        <-> In s (HeatmapResult.sectors h)
            /\ exists before rest,
                 JsString.toLowerCase (Sector.name s)
                 = (before
                    ++ JsString.toLowerCase (JsString.trim nameFilter)
                    ++ rest)%string).
Proof.
  assert (Hall : forall xs : list Sector.t, filter (fun _ => true) xs = xs).
  { induction xs as [|x xs IH]; [reflexivity|]. cbn. now rewrite IH. }
  unfold passing. rewrite rankingFilter_cases.
  split; [apply Hall|]. split.
  - intros ->. apply Hall.
  - intros Hne s. destruct (JsString.trim nameFilter) as [|c t] eqn:E;
      [contradiction|].
    rewrite filter_In. apply and_iff_compat_l.
    cbn [HeatmapResult.matchesFilter JsString.toLowerCase].
    destruct (Sector.name s) as [|d name] eqn:En.
    + split; [discriminate|]. intros (before & rest & H).
      destruct before; discriminate.
    + rewrite includes_spec. reflexivity.
Qed.

Lemma filter_selects_by_substring_witness :
  let sector c n := Sector.mk c c 0 n "" None in
  let h := HeatmapResult.make exact
             [sector "1" "Fresh Wheat"; sector "2" "Corn"; sector "3" ""]
             (Result.mk [] [] [] []) in
  In (sector "1" "Fresh Wheat") (passing h (Some "  WHEAT ")).
Proof.
  intros sector h.
  destruct (filter_selects_by_substring h "  WHEAT ") as (_ & _ & H).
  apply H; [discriminate|]. split; [left; reflexivity|].
  now exists "fresh ", EmptyString.
Defined.

(** X20. With an empty list of indicators every score is zero and the
    sort exchanges nothing: the ranking lists the sectors that pass the
    filter in the order of the sector list, cut by the count. *)
Theorem ranking_without_indicators {num : Type} (N : Arith.t num)
    (h : HeatmapResult.t num) (count : Z) (nameFilter : option string) :
  Arith.positive N (Arith.sub N (Arith.zero N) (Arith.zero N)) = false ->
  HeatmapResult.getRanking N h [] count nameFilter
  = Ok (slice0 count (passing h nameFilter)).
Proof.
  intros Hzero. rewrite getRanking_spec. f_equal. f_equal.
  apply sort_unordered. intros a b. exact Hzero.
Qed.

Lemma ranking_without_indicators_witness :
  let sector c i := Sector.mk c c i c "" None in
  let h := HeatmapResult.make binary64
             [sector "A" 0%Z; sector "B" 1%Z; sector "C" 2%Z]
             (Result.mk [[1; 1; 2]]%float [4]%float ["A"; "B"; "C"] ["I"]) in
  HeatmapResult.getRanking binary64 h [] 2 None
  = Ok [sector "A" 0%Z; sector "B" 1%Z].
Proof.
  intros sector h.
  apply (ranking_without_indicators binary64 h 2 None). reflexivity.
Defined.

(** ** The matrices of the constructor, cell by cell *)

Section ConstructorFacts.

Context {num : Type} (N : Arith.t num).

Import HeatmapResult.

Lemma make_normalized_row (sectors : list Sector.t) (r : Result.t num)
    (i : nat) :
  nth_error (normalized (make N sectors r)) i
  = option_map (map (normalizeEntry N (nth_error (Result.totals r) i)))
               (nth_error (Result.data r) i).
Proof. cbn [make normalized]. unfold normalize. apply nth_error_mapi. Qed.

(** The row of shares is computed from the row of [normalized] alone. *)
Lemma make_shares_row (sectors : list Sector.t) (r : Result.t num)
    (i : nat) :
  nth_error (shares (make N sectors r)) i
  = option_map (fun nrow => map (shareEntry N (maxIndicatorValue N nrow)) nrow)
               (nth_error (normalized (make N sectors r)) i).
Proof.
  cbn [make shares normalized]. rewrite nth_error_mapi.
  destruct (nth_error (normalize N r) i) as [nrow|] eqn:E; [|reflexivity].
  cbn [option_map]. f_equal.
  destruct nrow as [|x nrow]; [reflexivity|]. f_equal. f_equal.
  erewrite nth_error_nth; [reflexivity|].
  now rewrite nth_error_map, E.
Qed.

Lemma value_inside (data : list (list num)) (row column : Z)
    (xs : list num) (x : num) :
  (0 <= row)%Z -> (0 <= column)%Z ->
  nth_error data (Z.to_nat row) = Some xs ->
  nth_error xs (Z.to_nat column) = Some x ->
  value N data row column = Ok x.
Proof.
  intros Hr Hc Hxs Hx. unfold value.
  assert (Hlen : (Z.to_nat row < List.length data)%nat)
    by (apply nth_error_Some; congruence).
  assert (Hlen' : (Z.to_nat column < List.length xs)%nat)
    by (apply nth_error_Some; congruence).
  replace ((row <? 0)%Z || (Z.of_nat (List.length data) <=? row)%Z)
    with false by (symmetry; apply orb_false_intro; lia).
  rewrite Hxs.
  replace ((column <? 0)%Z || (Z.of_nat (List.length xs) <=? column)%Z)
    with false by (symmetry; apply orb_false_intro; lia).
  now rewrite Hx.
Qed.

Lemma map_constant {A B : Type} (f : A -> B) (b : B) (xs : list A) :
  (forall a, In a xs -> f a = b) -> map f xs = repeat b (List.length xs).
Proof.
  induction xs as [|x xs IH]; intros H; [reflexivity|].
  cbn [map List.length repeat]. rewrite (H x (or_introl eq_refl)), IH;
    [reflexivity|]. intros a Ha. apply H. now right.
Qed.

End ConstructorFacts.

(** X21. Inside the matrix the lookups return the cells: [getResult] the
    entry of the data, and [getShare] the share that the constructor
    computes for it from the entries and the total of the same row
    alone. *)
Theorem lookups_inside_the_matrix {num : Type} (N : Arith.t num)
    (sectors : list Sector.t) (r : Result.t num) (indicator : Indicator.t)
    (sector : Sector.t) (row : list num) (x : num) :
  (0 <= Indicator.index indicator)%Z -> (0 <= Sector.index sector)%Z ->
  nth_error (Result.data r) (Z.to_nat (Indicator.index indicator))
  = Some row ->
  nth_error row (Z.to_nat (Sector.index sector)) = Some x ->
  let h := HeatmapResult.make N sectors r in
  let total :=
    nth_error (Result.totals r) (Z.to_nat (Indicator.index indicator)) in
  let nrow := map (HeatmapResult.normalizeEntry N total) row in
  HeatmapResult.getResult N h (Some indicator) (Some sector) = Ok x
  /\ HeatmapResult.getShare N h (Some indicator) (Some sector)
     = Ok (HeatmapResult.shareEntry
             N (HeatmapResult.maxIndicatorValue N nrow)
             (HeatmapResult.normalizeEntry N total x)).
Proof.
  intros Hi Hs Hrow Hx h total nrow. split.
  - now apply (value_inside N _ _ _ row).
  - unfold HeatmapResult.getShare.
    apply (value_inside N _ _ _
             (map (HeatmapResult.shareEntry
                     N (HeatmapResult.maxIndicatorValue N nrow)) nrow));
      try assumption.
    + unfold h. rewrite make_shares_row, make_normalized_row, Hrow.
      reflexivity.
    + unfold nrow. rewrite !nth_error_map, Hx. reflexivity.
Qed.

Lemma lookups_inside_the_matrix_witness :
  let r := Result.mk [[1; 2]; [3; 4]]%float [3; 8]%float [] [] in
  let h := HeatmapResult.make binary64 [] r in
  let i := Indicator.mk "i" 1 "i" in
  let s := Sector.mk "s" "s" 1 "s" "" None in
  HeatmapResult.getResult binary64 h (Some i) (Some s) = Ok 4%float
  /\ HeatmapResult.getShare binary64 h (Some i) (Some s) = Ok 100%float.
Proof.
  intros r h i s.
  destruct (lookups_inside_the_matrix binary64 [] r i s [3; 4]%float 4%float)
    as [H1 H2]; [cbn; lia | cbn; lia | reflexivity | reflexivity |].
  split; [exact H1 | exact H2].
Defined.

(** X22. A row whose total is missing, zero or [NaN] is a row of zeros
    in [normalized] and in the shares, whatever its entries are (for
    numbers whose zero is zero). *)
Theorem row_without_total_is_zero {num : Type} (N : Arith.t num)
    (sectors : list Sector.t) (r : Result.t num) (i : nat)
    (row : list num) :
  Arith.isZero N (Arith.zero N) = true ->
  nth_error (Result.data r) i = Some row ->
  match nth_error (Result.totals r) i with
  | None => True
  | Some total => Arith.falsy N total = true
  end ->
  let h := HeatmapResult.make N sectors r in
  nth_error (HeatmapResult.normalized h) i
  = Some (repeat (Arith.zero N) (List.length row))
  /\ nth_error (HeatmapResult.shares h) i
     = Some (repeat (Arith.zero N) (List.length row)).
Proof.
  intros Hzero Hrow Htotal h.
  assert (Hn : nth_error (HeatmapResult.normalized h) i
               = Some (repeat (Arith.zero N) (List.length row))).
  { unfold h. rewrite make_normalized_row, Hrow. cbn [option_map]. f_equal.
    apply map_constant. intros x _. unfold HeatmapResult.normalizeEntry.
    destruct (nth_error (Result.totals r) i) as [total|]; [|reflexivity].
    now rewrite Htotal. }
  split; [exact Hn|].
  unfold h in *. rewrite make_shares_row, Hn. cbn [option_map]. f_equal.
  rewrite <- (repeat_length (Arith.zero N) (List.length row)) at 3.
  apply map_constant. intros x Hx. apply repeat_spec in Hx. subst x.
  unfold HeatmapResult.shareEntry. now rewrite Hzero.
Qed.

Lemma row_without_total_is_zero_witness :
  let r := Result.mk [[1; 2]; [3; 4]]%float [3; nan]%float [] [] in
  let h := HeatmapResult.make binary64 [] r in
  nth_error (HeatmapResult.shares h) 1 = Some [0; 0]%float.
Proof.
  intros r h.
  destruct (row_without_total_is_zero binary64 [] r 1 [3; 4]%float)
    as [_ H]; [reflexivity | reflexivity | reflexivity |].
  exact H.
Defined.

(** ** Aggregation over regions: the sectors and the cells *)

Section AggregatedSectorFacts.













End AggregatedSectorFacts.

Section AggregatedCellFacts.

Context {num : Type} (N : Arith.t num).









End AggregatedCellFacts.

Section AggregatedResultFacts.




End AggregatedResultFacts.





(** ** The names of the perspectives *)

Section PerspectiveFacts.

Import JsString.

Lemma normal_form_idem (v : string) :
  toLowerCase (trim (toLowerCase (trim v))) = toLowerCase (trim v).
Proof. now rewrite trim_lower, trim_idem, toLowerCase_idem. Qed.

(** [getPerspective] reads its argument in lower case and trimmed. *)
Lemma getPerspective_normal (v : string) :
  getPerspective (toLowerCase (trim v)) = getPerspective v.
Proof.
  destruct v as [|c v]; [reflexivity|].
  pose proof (normal_form_idem (String c v)) as Hidem.
  unfold getPerspective at 2. cbv zeta.
  destruct (toLowerCase (trim (String c v))) as [|d u] eqn:E;
    [reflexivity|].
  unfold getPerspective. cbv zeta. now rewrite Hidem.
Qed.

End PerspectiveFacts.

(** X25. The perspective is read without regard to case and to white
    space around it: two texts that agree after trimming and lower-casing
    give the same perspective, and the name under which [updateHash]
    writes a perspective gives that perspective back. *)
Theorem perspective_ignores_case_and_space (v w : string) :
  JsString.toLowerCase (JsString.trim v)
  = JsString.toLowerCase (JsString.trim w) ->
  getPerspective v = getPerspective w
  /\ forall p, getPerspective (ResultPerspective_toString p) = Some p.
Proof.
  intros H. split; [|now intros []].
  rewrite <- (getPerspective_normal v), <- (getPerspective_normal w).
  now rewrite H.
Qed.

Lemma perspective_ignores_case_and_space_witness :
  getPerspective "  Supply CHAIN " = getPerspective "supply chain"
  /\ getPerspective "supply chain" = Some direct.
Proof.
  split; [|reflexivity].
  apply (perspective_ignores_case_and_space "  Supply CHAIN " "supply chain").
  reflexivity.
Defined.

(** ** The heatmap of a multi-regional model *)

Section RegionalHeatmapFacts.




End RegionalHeatmapFacts.



(** ** The scale of the shares *)

Section ShareScaleFacts.

Lemma Qabs_full_share (n max : Q) :
  Qabs n == max -> ~ max == 0 -> Qabs (100 * n / max) == 100.
Proof.
  intros Hn Hmax. rewrite Qabs_div, Qabs_Qmult.
  assert (Hm : Qabs max == max).
  { rewrite <- Hn. apply Qabs_pos. apply Qabs_nonneg. }
  rewrite Hm, Hn. change (Qabs 100) with 100. now field.
Qed.

End ShareScaleFacts.

(** X27. In exact arithmetic the shares of a row are scaled to its
    largest entry: in every row of [normalized] that holds a nonzero
    entry, an entry of largest absolute value has the share [100] or
    [-100]. *)
Theorem row_maximum_has_full_share (sectors : list Sector.t)
    (r : Result.t Q) (i : nat) (nrow : list Q) :
  let h := HeatmapResult.make exact sectors r in
  nth_error (HeatmapResult.normalized h) i = Some nrow ->
  ~ HeatmapResult.maxIndicatorValue exact nrow == 0 ->
  exists srow j n s,
    nth_error (HeatmapResult.shares h) i = Some srow
    /\ nth_error nrow j = Some n
    /\ nth_error srow j = Some s
    /\ Qabs n == HeatmapResult.maxIndicatorValue exact nrow
    /\ Qabs s == 100.
Proof.
  intros h Hrow Hmax.
  assert (Hne : nrow <> []) by (intros ->; now apply Hmax).
  destruct (maxIndicatorValue_attained nrow Hne) as (n & Hin & Hn).
  apply In_nth_error in Hin as [j Hj].
  exists (map (HeatmapResult.shareEntry
                 exact (HeatmapResult.maxIndicatorValue exact nrow)) nrow),
         j, n,
         (HeatmapResult.shareEntry
            exact (HeatmapResult.maxIndicatorValue exact nrow) n).
  repeat split.
  - unfold h in *. now rewrite make_shares_row, Hrow.
  - exact Hj.
  - now rewrite nth_error_map, Hj.
  - exact Hn.
  - destruct (shareEntry_spec (HeatmapResult.maxIndicatorValue exact nrow) n)
      as (_ & _ & Hs); [rewrite Hn; apply Qle_refl|].
    rewrite (Hs Hmax). now apply Qabs_full_share.
Qed.

Lemma row_maximum_has_full_share_witness :
  let r := Result.mk [[7; -14]] [21] ["a"; "b"] ["i"] in
  let h := HeatmapResult.make exact [] r in
  exists srow j n s,
    nth_error (HeatmapResult.shares h) 0 = Some srow
    /\ nth_error [7 / 21; -14 / 21] j = Some n
    /\ nth_error srow j = Some s
    /\ Qabs s == 100.
Proof.
  intros r h.
  destruct (row_maximum_has_full_share [] r 0 [7 / 21; -14 / 21])
    as (srow & j & n & s & H1 & H2 & H3 & _ & H5).
  - reflexivity.
  - vm_compute. discriminate.
  - exists srow, j, n, s. now repeat split.
Defined.

(** ** Applying the same parameters again *)

Section StickyFacts.

Context {A : Type}.
Variable sticky : option A -> bool.
Variable offer : string * string -> option A.

(** How one parameter acts on one field: a field that holds a value that
    counts as set is kept, any other takes the value offered, if one
    is. *)
Let step (x : option A) (p : string * string) : option A :=
  if sticky x then x
  else match offer p with
       | Some v => Some v
       | None => x
       end.

Let pick (ps : list (string * string)) (x : option A) : option A :=
  fold_left (fun acc p => match offer p with
                          | Some v => Some v
                          | None => acc
                          end) ps x.

Lemma sticky_absorbs (ps : list (string * string)) (x : option A) :
  sticky x = true -> fold_left step ps x = x.
Proof.
  intros H. induction ps as [|p ps IH]; [reflexivity|].
  cbn [fold_left]. unfold step at 2. now rewrite H.
Qed.

Lemma fold_loose (ps : list (string * string)) (x : option A) :
  sticky (fold_left step ps x) = false ->
  fold_left step ps x = pick ps x
  /\ forall z, sticky z = false -> fold_left step ps z = pick ps z.
Proof.
  revert x. induction ps as [|p ps IH]; intros x Hx; [now split|].
  cbn [fold_left] in *.
  destruct (sticky x) eqn:Hs.
  - unfold step at 2 in Hx. rewrite Hs in Hx.
    rewrite (sticky_absorbs ps x Hs) in Hx. congruence.
  - assert (Hstep : forall z, sticky z = false ->
                      step z p = match offer p with
                                 | Some v => Some v
                                 | None => z
                                 end).
    { intros z Hz. unfold step. now rewrite Hz. }
    destruct (IH _ Hx) as [IH1 IH2]. unfold pick. cbn [fold_left].
    fold (pick ps). rewrite (Hstep x Hs) in *. split; [exact IH1|].
    intros z Hz. rewrite (Hstep z Hz).
    destruct (offer p) as [v|]; [exact IH1 | now apply IH2].
Qed.

Lemma pick_either (ps : list (string * string)) (x z : option A) :
  pick ps z = pick ps x \/ (pick ps z = z /\ pick ps x = x).
Proof.
  revert x z. induction ps as [|p ps IH]; intros x z; [now right|].
  unfold pick. cbn [fold_left]. fold (pick ps).
  destruct (offer p) as [v|]; [now left | apply IH].
Qed.

Lemma pick_idem (ps : list (string * string)) (x : option A) :
  pick ps (pick ps x) = pick ps x.
Proof.
  destruct (pick_either ps x (pick ps x)) as [H | [H _]]; exact H.
Qed.

(** Applying the parameters to what they gave leaves it. *)
Lemma sticky_idem (ps : list (string * string)) (x : option A) :
  fold_left step ps (fold_left step ps x) = fold_left step ps x.
Proof.
  destruct (sticky (fold_left step ps x)) eqn:Hs.
  - now apply sticky_absorbs.
  - destruct (fold_loose ps x Hs) as [H1 H2].
    rewrite (H2 _ Hs), H1. apply pick_idem.
Qed.

Variable field : Config -> option A.

Hypothesis field_step :
  forall c p, field (updateConfigParam c p) = step (field c) p.

Lemma field_fold (ps : list (string * string)) (c : Config) :
  field (updateConfig c ps) = fold_left step ps (field c).
Proof.
  revert c. induction ps as [|p ps IH]; intros c; [reflexivity|].
  cbn [updateConfig fold_left]. fold (updateConfig (updateConfigParam c p) ps).
  now rewrite IH, field_step.
Qed.

Lemma field_idem (ps : list (string * string)) (c : Config) :
  field (updateConfig (updateConfig c ps) ps) = field (updateConfig c ps).
Proof. rewrite !field_fold. apply sticky_idem. Qed.

End StickyFacts.

Section FieldStepFacts.

(** Incompatible answers of the [switch] on the key. *)
Ltac clash_of_keys :=
  exfalso;
  repeat match goal with
         | H : (_ || _) = true |- _ => apply orb_true_iff in H as [H | H]
         | H : String.eqb _ _ = true |- _ => apply String.eqb_eq in H
         end;
  congruence.

(** Decide every test of [updateConfigParam] and of the field. *)
Ltac by_key :=
  repeat match goal with
         | |- context [if ?b then _ else _] => destruct b eqn:?
         | |- context [match ?o with Some _ => _ | None => _ end] =>
             destruct o eqn:?
         end;
  cbn; try reflexivity; try congruence; clash_of_keys.

Lemma model_step (c : Config) (p : string * string) :
  model (updateConfigParam c p)
  = if JsString.truthy (model c) then model c
    else match (if String.eqb (fst p) "model" then Some (snd p) else None) with
         | Some v => Some v
         | None => model c
         end.
Proof.
  destruct p as [k v], c as [src m s i pe a y l].
  unfold updateConfigParam.
  cbn [fst snd model sectors indicators perspective analysis year location].
  by_key.
Qed.

Lemma sectors_step (c : Config) (p : string * string) :
  sectors (updateConfigParam c p)
  = if UrlConfigTransmitter.isSome (sectors c) then sectors c
    else match (if String.eqb (fst p) "sectors"
                then Some (JsString.split "," (snd p)) else None) with
         | Some v => Some v
         | None => sectors c
         end.
Proof.
  destruct p as [k v], c as [src m s i pe a y l].
  unfold updateConfigParam.
  cbn [fst snd model sectors indicators perspective analysis year location].
  destruct s; cbn [UrlConfigTransmitter.isSome]; by_key.
Qed.

Lemma indicators_step (c : Config) (p : string * string) :
  indicators (updateConfigParam c p)
  = if UrlConfigTransmitter.isSome (indicators c) then indicators c
    else match (if String.eqb (fst p) "indicators"
                then Some (JsString.split "," (snd p)) else None) with
         | Some v => Some v
         | None => indicators c
         end.
Proof.
  destruct p as [k v], c as [src m s i pe a y l].
  unfold updateConfigParam.
  cbn [fst snd model sectors indicators perspective analysis year location].
  destruct i; cbn [UrlConfigTransmitter.isSome]; by_key.
Qed.

Lemma analysis_step (c : Config) (p : string * string) :
  analysis (updateConfigParam c p)
  = if UrlConfigTransmitter.isSome (analysis c) then analysis c
    else match (if String.eqb (fst p) "type" || String.eqb (fst p) "analysis"
                then if strings_eq (snd p) "consumption"
                     then Some Consumption
                     else if strings_eq (snd p) "production"
                          then Some Production else None
                else None) with
         | Some v => Some v
         | None => analysis c
         end.
Proof.
  destruct p as [k v], c as [src m s i pe a y l].
  unfold updateConfigParam.
  cbn [fst snd model sectors indicators perspective analysis year location].
  destruct a; cbn [UrlConfigTransmitter.isSome]; by_key.
Qed.

Lemma perspective_step (c : Config) (p : string * string) :
  perspective (updateConfigParam c p)
  = if UrlConfigTransmitter.isSome (perspective c) then perspective c
    else match (if String.eqb (fst p) "perspective"
                then getPerspective (snd p) else None) with
         | Some v => Some v
         | None => perspective c
         end.
Proof.
  destruct p as [k v], c as [src m s i pe a y l].
  unfold updateConfigParam.
  cbn [fst snd model sectors indicators perspective analysis year location].
  destruct pe; cbn [UrlConfigTransmitter.isSome]; by_key.
Qed.

Lemma location_step (c : Config) (p : string * string) :
  location (updateConfigParam c p)
  = if JsString.truthy (location c) then location c
    else match (if String.eqb (fst p) "location" then Some (snd p)
                else None) with
         | Some v => Some v
         | None => location c
         end.
Proof.
  destruct p as [k v], c as [src m s i pe a y l].
  unfold updateConfigParam.
  cbn [fst snd model sectors indicators perspective analysis year location].
  by_key.
Qed.

Lemma year_step (c : Config) (p : string * string) :
  year (updateConfigParam c p)
  = if JsNumber.truthy (year c) then year c
    else match (if String.eqb (fst p) "year"
                then Some (JsNumber.parseInt (snd p)) else None) with
         | Some v => Some v
         | None => year c
         end.
Proof.
  destruct p as [k v], c as [src m s i pe a y l].
  unfold updateConfigParam.
  cbn [fst snd model sectors indicators perspective analysis year location].
  by_key.
Qed.

Lemma Config_ext (a b : Config) :
  source a = source b -> model a = model b -> sectors a = sectors b ->
  indicators a = indicators b -> perspective a = perspective b ->
  analysis a = analysis b -> year a = year b -> location a = location b ->
  a = b.
Proof. destruct a, b. cbn. intros. now subst. Qed.

End FieldStepFacts.

Section ApplyOnceFacts.

Lemma updateConfig_idem (c : Config) (params : list (string * string)) :
  updateConfig (updateConfig c params) params = updateConfig c params.
Proof.
  apply Config_ext.
  - now rewrite !updateConfig_source.
  - apply (field_idem
             JsString.truthy
             (fun p => if String.eqb (fst p) "model" then Some (snd p)
                       else None)
             model model_step).
  - apply (field_idem
             UrlConfigTransmitter.isSome
             (fun p => if String.eqb (fst p) "sectors"
                       then Some (JsString.split "," (snd p)) else None)
             sectors sectors_step).
  - apply (field_idem
             UrlConfigTransmitter.isSome
             (fun p => if String.eqb (fst p) "indicators"
                       then Some (JsString.split "," (snd p)) else None)
             indicators indicators_step).
  - apply (field_idem
             UrlConfigTransmitter.isSome
             (fun p => if String.eqb (fst p) "perspective"
                       then getPerspective (snd p) else None)
             perspective perspective_step).
  - apply (field_idem
             UrlConfigTransmitter.isSome
             (fun p => if String.eqb (fst p) "type"
                          || String.eqb (fst p) "analysis"
                       then if strings_eq (snd p) "consumption"
                            then Some Consumption
                            else if strings_eq (snd p) "production"
                                 then Some Production else None
                       else None)
             analysis analysis_step).
  - apply (field_idem
             JsNumber.truthy
             (fun p => if String.eqb (fst p) "year"
                       then Some (JsNumber.parseInt (snd p)) else None)
             year year_step).
  - apply (field_idem
             JsString.truthy
             (fun p => if String.eqb (fst p) "location" then Some (snd p)
                       else None)
             location location_step).
Qed.

End ApplyOnceFacts.

(** X28. Applying a list of parameters a second time changes nothing:
    [updateConfig] is idempotent, for every configuration to start from.
    So parameters that occur again are harmless: a page that includes
    every script twice reads the same configuration. *)
Theorem parameters_apply_once (c : Config) (params : list (string * string))
    (href : string) (scriptSrcs : list string) (withScripts : bool) :
  updateConfig (updateConfig c params) params = updateConfig c params
  /\ parseUrlConfig href (scriptSrcs ++ scriptSrcs) withScripts
     = parseUrlConfig href scriptSrcs withScripts.
Proof.
  split; [apply updateConfig_idem|].
  rewrite !parseUrlConfig_fold. unfold configUrls, urlParameters.
  cbn [flat_map]. rewrite !updateConfig_app.
  destruct withScripts; [|reflexivity].
  rewrite filter_app, flat_map_app, updateConfig_app.
  apply updateConfig_idem.
Qed.

(** ** The order of the indicators *)

Section IndicatorOrderFacts.

Lemma insert_ext {A num : Type} (N : Arith.t num) (cmp cmp' : A -> A -> num)
    (x : A) (xs : list A) :
  (forall a b, Arith.positive N (cmp a b) = Arith.positive N (cmp' a b)) ->
  insert N cmp x xs = insert N cmp' x xs.
Proof.
  intros H. induction xs as [|y xs IH]; [reflexivity|].
  cbn [insert]. now rewrite H, IH.
Qed.

(** The sort depends on the comparator through its sign alone. *)
Lemma sort_ext {A num : Type} (N : Arith.t num) (cmp cmp' : A -> A -> num)
    (xs : list A) :
  (forall a b, Arith.positive N (cmp a b) = Arith.positive N (cmp' a b)) ->
  sort N cmp xs = sort N cmp' xs.
Proof.
  intros H. induction xs as [|x xs IH]; [reflexivity|].
  cbn [sort fold_right]. fold (sort N cmp xs) (sort N cmp' xs).
  rewrite IH. now apply insert_ext.
Qed.

(** The entry of [normalized] that a score adds for an indicator. *)
Let cell (h : HeatmapResult.t Q) (s : Sector.t) (i : Indicator.t) : Q :=
  match HeatmapResult.value exact (HeatmapResult.normalized h)
                            (Indicator.index i) (Sector.index s) with
  | Ok v => v
  | _ => 0
  end.

Lemma score_fold (h : HeatmapResult.t Q) (s : Sector.t)
    (indicators : list Indicator.t) :
  scoreOf exact h indicators s
  = fold_left Qplus (map (cell h s) indicators) 0.
Proof.
  unfold scoreOf, HeatmapResult.getRankingValue.
  assert (H : forall acc,
             match
               fold_left
                 (fun sum indicator =>
                    let* sum := sum in
                    let* v := HeatmapResult.value
                                exact (HeatmapResult.normalized h)
                                (Indicator.index indicator) (Sector.index s) in
                    Ok (Arith.add exact sum v))
                 indicators (Ok acc)
             with
             | Ok v => v
             | _ => Arith.zero exact
             end
             = fold_left Qplus (map (cell h s) indicators) acc).
  { induction indicators as [|i indicators IH]; intros acc; [reflexivity|].
    cbn [fold_left map]. unfold cell at 2.
    destruct (value_total exact (HeatmapResult.normalized h)
                          (Indicator.index i) (Sector.index s)) as [v Hv].
    rewrite Hv. cbn [bind]. apply IH. }
  apply H.
Qed.

Lemma fold_plus_perm (xs ys : list Q) :
  Permutation xs ys -> fold_left Qplus xs 0 == fold_left Qplus ys 0.
Proof.
  induction 1 as [|x xs ys _ IH|x y xs|xs ys zs _ IH1 _ IH2].
  - reflexivity.
  - cbn [fold_left]. rewrite (fold_add_acc xs), (fold_add_acc ys), IH.
    reflexivity.
  - cbn [fold_left]. rewrite (fold_add_acc xs (0 + y + x)),
      (fold_add_acc xs (0 + x + y)). ring.
  - now rewrite IH1.
Qed.

Lemma score_perm (h : HeatmapResult.t Q) (s : Sector.t)
    (indicators indicators' : list Indicator.t) :
  Permutation indicators indicators' ->
  scoreOf exact h indicators s == scoreOf exact h indicators' s.
Proof.
  intros H. rewrite !score_fold. apply fold_plus_perm.
  now apply Permutation_map.
Qed.

End IndicatorOrderFacts.

(** X29. In exact arithmetic the ranking does not depend on the order in
    which the indicators are given: two lists with the same indicators,
    each as often in both, give the same ranking. *)
Theorem ranking_ignores_indicator_order (h : HeatmapResult.t Q)
    (indicators indicators' : list Indicator.t) (count : Z)
    (nameFilter : option string) :
  Permutation indicators indicators' ->
  HeatmapResult.getRanking exact h indicators count nameFilter
  = HeatmapResult.getRanking exact h indicators' count nameFilter.
Proof.
  intros Hperm. rewrite !getRanking_spec. f_equal. f_equal.
  apply sort_ext. intros a b.
  pose proof (score_perm h a _ _ Hperm) as Ha.
  pose proof (score_perm h b _ _ Hperm) as Hb.
  destruct (Arith.positive exact
              (Arith.sub exact (scoreOf exact h indicators' b)
                               (scoreOf exact h indicators' a))) eqn:E.
  - apply (byKey_positive (scoreOf exact h indicators')) in E.
    apply (byKey_positive (scoreOf exact h indicators)).
    now rewrite Ha, Hb.
  - apply (byKey_not_positive (scoreOf exact h indicators')) in E.
    apply (byKey_not_positive (scoreOf exact h indicators)).
    now rewrite Ha, Hb.
Qed.

Lemma ranking_ignores_indicator_order_witness :
  let sector c i := Sector.mk c c i c "" None in
  let h := HeatmapResult.make exact
             [sector "A" 0%Z; sector "B" 1%Z; sector "C" 2%Z]
             (Result.mk [[1; 1; 2]; [3; 0; 1]] [4; 4] ["A"; "B"; "C"]
                        ["I"; "J"]) in
  let i := Indicator.mk "I" 0 "I" in
  let j := Indicator.mk "J" 1 "J" in
  HeatmapResult.getRanking exact h [i; j] 3 None
  = HeatmapResult.getRanking exact h [j; i] 3 None.
Proof.
  intros sector h i j.
  apply (ranking_ignores_indicator_order h [i; j] [j; i] 3 None).
  apply perm_swap.
Defined.
